(** * task-service frontend: the transport client and the view-state controller

    A shallow embedding of [frontend/src/api.ts], [frontend/src/types.ts] and
    of the [App] component (state, [filters], [load], [onCreate], [onDelete],
    [onStatus] and the event handlers of the rendered inputs).

    - A JavaScript string is represented by the bytes of its UTF-8 encoding
      (Rocq's [string]); the literals of the source are written as they are.
      A surrogate code unit without its partner, which a JavaScript string
      may hold and UTF-8 proper cannot encode, is written as the three bytes
      the encoding scheme gives its code point, so that two strings that
      differ in JavaScript differ here; [USVString] is the conversion of the
      platform that replaces each of them by U+FFFD.
    - A value read from the network is a [json] value or [undefined].
    - An [async] function is a [proc]: a tree of setter calls that stops at
      each [await fetch(..)]; a [Config] holds the component state, the
      requests in flight with what resumes when they resolve, and the log of
      the requests issued. *)

From Stdlib Require Import Ascii String ZArith List Lia.
From stdpp Require Import base decidable option list strings pretty gmap.

Local Open Scope string_scope.
Set Warnings "-register-all".

(** ** Strings *)

Definition byte (n : N) : ascii := ascii_of_N n.

(** The double quote, for the literals of the source that contain one. *)
Definition dquote : string := String (byte 34) EmptyString.

(** UTF-8 encoding of one code point. *)
Definition utf8 (cp : N) : string :=
  let cont (x : N) := byte (128 + x mod 64)%N in
  if (cp <? 128)%N then String (byte cp) EmptyString
  else if (cp <? 2048)%N then
    String (byte (192 + cp / 64)%N) (String (cont cp) EmptyString)
  else if (cp <? 65536)%N then
    String (byte (224 + cp / 4096)%N)
      (String (cont (cp / 64)%N) (String (cont cp) EmptyString))
  else
    String (byte (240 + cp / 262144)%N)
      (String (cont (cp / 4096)%N)
         (String (cont (cp / 64)%N) (String (cont cp) EmptyString))).

(** ECMAScript's WhiteSpace and LineTerminator code points: what
    [String.prototype.trim] removes. *)
Definition white_space_code_points : list N :=
  [ 0x0009; 0x000A; 0x000B; 0x000C; 0x000D; 0x0020; 0x00A0; 0x1680;
    0x2000; 0x2001; 0x2002; 0x2003; 0x2004; 0x2005; 0x2006; 0x2007;
    0x2008; 0x2009; 0x200A; 0x2028; 0x2029; 0x202F; 0x205F; 0x3000;
    0xFEFF ]%N.

Definition white_space_chars : list string :=
  Eval vm_compute in map utf8 white_space_code_points.

(** [strip_prefix w s]: the rest of [s] after its prefix [w]. *)
Fixpoint strip_prefix (w s : string) : option string :=
  match w with
  | EmptyString => Some s
  | String a w' =>
      match s with
      | String b s' => if Ascii.eqb a b then strip_prefix w' s' else None
      | EmptyString => None
      end
  end.

Fixpoint strip_first (ws : list string) (s : string) : option string :=
  match ws with
  | [] => None
  | w :: ws' =>
      match strip_prefix w s with
      | Some r => Some r
      | None => strip_first ws' s
      end
  end.

(** No string of [ws] is a proper prefix of another. *)
Definition prefix_free (ws : list string) : bool :=
  forallb (fun w => forallb (fun w' =>
    match strip_prefix w w' with
    | Some _ => String.eqb w w'
    | None => true
    end) ws) ws.

(** The rest of [s] after one leading white-space character, if it has one. *)
Definition white_space_prefix (s : string) : option string :=
  strip_first white_space_chars s.

Fixpoint drop_white_space (fuel : nat) (s : string) : string :=
  match fuel with
  | O => s
  | S n =>
      match white_space_prefix s with
      | Some r => drop_white_space n r
      | None => s
      end
  end.

Definition trimStart (s : string) : string :=
  drop_white_space (String.length s) s.

Definition is_empty (s : string) : bool :=
  match s with EmptyString => true | String _ _ => false end.

(** Cut [s] where what remains is white space only. *)
Fixpoint trimEnd (s : string) : string :=
  match s with
  | EmptyString => EmptyString
  | String c r =>
      if is_empty (trimStart s) then EmptyString else String c (trimEnd r)
  end.

(** [s.trim()] *)
Definition trim (s : string) : string := trimEnd (trimStart s).

(** A string made of white-space characters only. *)
Inductive white_space_only : string -> Prop :=
| wso_nil : white_space_only EmptyString
| wso_cons w r :
    In w white_space_chars -> white_space_only r ->
    white_space_only (w +:+ r).

(** [blank s]: empty or white space only, the strings for which [!s.trim()]
    holds. *)
Definition blank (s : string) : Prop := white_space_only s.

(** [s] ends with a white-space character. *)
Definition ends_with_white_space (s : string) : Prop :=
  exists a w, s = a +:+ w /\ In w white_space_chars.

(** [v] is [s] without the white space at its two ends. *)
Definition trimmed_of (s v : string) : Prop :=
  (exists w1 w2, s = w1 +:+ v +:+ w2 /\ white_space_only w1 /\ white_space_only w2) /\
  white_space_prefix v = None /\
  ~ ends_with_white_space v.

(** Every byte of [s] satisfies [P]. *)
Fixpoint all_bytes (P : ascii -> bool) (s : string) : bool :=
  match s with
  | EmptyString => true
  | String c r => P c && all_bytes P r
  end.

(** A surrogate code unit without its partner: the bytes [ED], one of [A0]
    to [BF], and a continuation byte. No character of UTF-8 proper starts
    with the first two. *)
Definition lone_surrogate (a b c : ascii) : bool :=
  ((N_of_ascii a =? 237)
   && ((160 <=? N_of_ascii b) && (N_of_ascii b <=? 191))
   && ((128 <=? N_of_ascii c) && (N_of_ascii c <=? 191)))%N.

(** U+FFFD *)
Definition replacement_character : string := Eval vm_compute in utf8 0xFFFD.

(** The conversion to a USVString that the platform applies to a string
    argument of [URLSearchParams]: each surrogate without its partner
    becomes U+FFFD. *)
Fixpoint USVString (s : string) : string :=
  match s with
  | EmptyString => EmptyString
  | String a t =>
      match t with
      | String b (String c r) =>
          if lone_surrogate a b c then replacement_character +:+ USVString r
          else String a (USVString t)
      | _ => String a (USVString t)
      end
  end.

(** A string without such a surrogate. *)
Definition scalar (s : string) : Prop := USVString s = s.

(** JavaScript's truthiness of a string, and [s || undefined]. *)
Definition truthy_string (s : string) : bool := negb (is_empty s).

Definition or_undefined (s : string) : option string :=
  if truthy_string s then Some s else None.

(** [v ?? d] *)
Definition nullish {A} (v : option A) (d : A) : A :=
  match v with Some a => a | None => d end.

Fixpoint join (sep : string) (l : list string) : string :=
  match l with
  | [] => EmptyString
  | [x] => x
  | x :: l' => x +:+ sep +:+ join sep l'
  end.

(** ** Values read from the network or parsed from text *)

(** A value [JSON.parse] or [res.json()] can produce. A number is held as the
    decimal text JavaScript prints for it (both zeros print as 0): the
    program only tests numbers for truth and turns them into text. An
    object is the list of its own properties, each name once. *)
Inductive json : Type :=
| JNull
| JBool (b : bool)
| JNum (repr : string)
| JStr (s : string)
| JArr (l : list json)
| JObj (fields : list (string * json)).

(** A JavaScript value here: a [json] value or [undefined] ([None]). *)
Definition jsval : Type := option json.

(** ToBoolean *)
Definition truthy (v : json) : bool :=
  match v with
  | JNull => false
  | JBool b => b
  | JNum repr => negb (String.eqb repr "0")
  | JStr s => truthy_string s
  | JArr _ | JObj _ => true
  end.

Definition truthy_val (v : jsval) : bool :=
  match v with Some j => truthy j | None => false end.

Fixpoint assoc (k : string) (fields : list (string * json)) : jsval :=
  match fields with
  | [] => None
  | (k', v) :: rest => if String.eqb k k' then Some v else assoc k rest
  end.

(** ToString, [None] when it throws a TypeError. An array joins the
    conversions of its elements with commas, [null] elements as the empty
    string, and throws when one of them does. An object is converted by
    the [toString] it finds: the one of [Object.prototype], which answers
    [[object Object]], unless the object has a property of that name of
    its own; a value read from JSON is no function, so that then nothing
    converts the object and the conversion throws. *)
Fixpoint ToString (v : json) : option string :=
  match v with
  | JNull => Some "null"
  | JBool true => Some "true"
  | JBool false => Some "false"
  | JNum repr => Some repr
  | JStr s => Some s
  | JArr l =>
      join "," <$>
        (fix elements (l : list json) : option (list string) :=
           match l with
           | [] => Some []
           | x :: l' =>
               match (match x with JNull => Some EmptyString | _ => ToString x end) with
               | Some t =>
                   match elements l' with
                   | Some ts => Some (t :: ts)
                   | None => None
                   end
               | None => None
               end
           end) l
  | JObj fields =>
      match assoc "toString" fields with
      | Some _ => None
      | None => Some "[object Object]"
      end
  end.

(** [v.k] for a [v] that is not [null], and a name [k] that no prototype
    defines ([detail], [items]): an own property of an object, [undefined]
    otherwise. *)
Definition prop (v : json) (k : string) : jsval :=
  match v with
  | JObj fields => assoc k fields
  | _ => None
  end.

(** [v?.k] *)
Definition opt_prop (v : json) (k : string) : jsval :=
  match v with
  | JNull => None
  | _ => prop v k
  end.

(** A thrown value, as the handlers read it: [e?.message]. *)
Record exn : Type := Thrown { message : option string }.

(** [new Error(m)] *)
Definition Error (m : string) : exn := Thrown (Some m).

Inductive result (A : Type) : Type :=
| Ok (a : A)
| Fail (e : exn).
Arguments Ok {A} a.
Arguments Fail {A} e.

(** ** types.ts *)

Inductive SiteType : Type := marketplace | news | ecommerce | classifieds | other.
Inductive TaskStatus : Type := created | running | paused | completed | failed.

Definition SiteType_str (t : SiteType) : string :=
  match t with
  | marketplace => "marketplace"
  | news => "news"
  | ecommerce => "ecommerce"
  | classifieds => "classifieds"
  | other => "other"
  end.

Definition TaskStatus_str (t : TaskStatus) : string :=
  match t with
  | created => "created"
  | running => "running"
  | paused => "paused"
  | completed => "completed"
  | failed => "failed"
  end.

Record TaskCreate : Type := {
  tc_name : string;
  tc_url : string;
  tc_site_type : SiteType;
  tc_criteria : json
}.

(** The object [JSON.stringify] is given for a [TaskCreate]. *)
Definition TaskCreate_json (p : TaskCreate) : json :=
  JObj [ ("name", JStr (tc_name p)); ("url", JStr (tc_url p));
         ("site_type", JStr (SiteType_str (tc_site_type p)));
         ("criteria", tc_criteria p) ].

(** ** fetch *)

(** One call of [fetch]. [fetch_body] is the value whose [JSON.stringify]
    text is sent. *)
Record Fetch : Type := {
  fetch_url : string;
  fetch_method : option string;
  fetch_body : option json;
  fetch_headers : list (string * string)
}.

(** What the code reads of a response: [res.status], [res.ok] and the
    outcome of [res.json()], which rejects when the body is not JSON. *)
Record Response : Type := {
  res_status : Z;
  res_json : result json
}.

Definition res_ok (res : Response) : bool :=
  ((200 <=? res_status res) && (res_status res <=? 299))%Z.

(** How the promise of a [fetch] settles. *)
Inductive FetchOutcome : Type :=
| Rejected (e : exn)
| Resolved (res : Response).

(** A response without content. *)
Definition no_content : FetchOutcome :=
  Resolved {| res_status := 204; res_json := Fail (Thrown None) |}.

(** ** Asynchronous functions *)

(** The state setters of the component ([useState]). *)
Inductive Setter : Type :=
| setItems (v : jsval)
| setLoading (b : bool)
| setErr (e : option string)
| setQ (s : string)
| setSiteType (s : string)
| setStatus (s : string)
| setName (s : string)
| setUrl (s : string)
| setCreateSiteType (t : SiteType)
| setCriteriaText (s : string).

(** An [async] function body: it returns, throws, calls a setter and goes
    on, or awaits a [fetch] and goes on with how it settled. *)
Inductive proc (A : Type) : Type :=
| Return (a : A)
| Throw (e : exn)
| Call (u : Setter) (k : proc A)
| Await (f : Fetch) (k : FetchOutcome -> proc A).
Arguments Return {A} a.
Arguments Throw {A} e.
Arguments Call {A} u k.
Arguments Await {A} f k.

Fixpoint bind {A B} (p : proc A) (g : A -> proc B) : proc B :=
  match p with
  | Return a => g a
  | Throw e => Throw e
  | Call u k => Call u (bind k g)
  | Await f k => Await f (fun o => bind (k o) g)
  end.

(** [try { p } catch (e) { h e }] *)
Fixpoint try_catch {A} (p : proc A) (h : exn -> proc A) : proc A :=
  match p with
  | Return a => Return a
  | Throw e => h e
  | Call u k => Call u (try_catch k h)
  | Await f k => Await f (fun o => try_catch (k o) h)
  end.

(** [try { p } finally { q }] *)
Fixpoint finally {A} (p : proc A) (q : proc unit) : proc A :=
  match p with
  | Return a => bind q (fun _ => Return a)
  | Throw e => bind q (fun _ => Throw e)
  | Call u k => Call u (finally k q)
  | Await f k => Await f (fun o => finally (k o) q)
  end.

Definition call (u : Setter) : proc unit := Call u (Return tt).

Definition lift {A} (r : result A) : proc A :=
  match r with
  | Ok a => Return a
  | Fail e => Throw e
  end.

(** What [p] goes on with when the [fetch] it awaits settles as [o]. *)
Definition resume {A} (p : proc A) (o : FetchOutcome) : proc A :=
  match p with
  | Await _ k => k o
  | _ => p
  end.

(** The [fetch] that [p] reaches first, with what resumes after it. *)
Fixpoint awaiting {A} (p : proc A) : option (Fetch * (FetchOutcome -> proc A)) :=
  match p with
  | Return _ | Throw _ => None
  | Call _ k => awaiting k
  | Await f k => Some (f, k)
  end.

(** The [fetch] an operation of the transport issues. *)
Definition request_of {A} (p : proc A) : option Fetch := fst <$> awaiting p.

(** Every setter call of [p], at any stage, satisfies [P]. *)
Inductive calls_only {A} (P : Setter -> Prop) : proc A -> Prop :=
| co_return a : calls_only P (Return a)
| co_throw e : calls_only P (Throw e)
| co_call u k : P u -> calls_only P k -> calls_only P (Call u k)
| co_await f k : (forall o, calls_only P (k o)) -> calls_only P (Await f k).

#[global] Instance proc_ret : MRet proc := @Return.
#[global] Instance proc_bind : MBind proc := fun A B g p => bind p g.

(** ** The JavaScript engine *)

(** What the engine provides and the repository does not define:
    [JSON.parse] ([None] when it throws a SyntaxError), the TypeError
    thrown when property [k] of [undefined] or [null] is read, and the
    TypeError thrown when a value cannot be converted to a string. *)
Class Engine : Type := {
  JSON_parse : string -> option json;
  TypeError_of_read : jsval -> string -> exn;
  TypeError_of_ToString : json -> exn
}.

(** [v.k] for any value [v]. *)
Definition read_prop `{Engine} (v : jsval) (k : string) : result jsval :=
  match v with
  | None | Some JNull => Fail (TypeError_of_read v k)
  | Some j => Ok (prop j k)
  end.

(** What [throw new Error(v)] throws, for a value [v] that is not
    [undefined]: the Error whose message is [ToString v], or the TypeError
    of that conversion. *)
Definition new_Error `{Engine} (v : json) : exn :=
  match ToString v with
  | Some m => Error m
  | None => TypeError_of_ToString v
  end.

(** ** api.ts *)

Module api.

Section Transport.
Context `{Engine}.

Definition API_BASE : string := "http://localhost:8000/api".

(** The fields of [init] the callers pass. *)
Record RequestInit : Type := {
  method : string;
  body : option json
}.

(** [`HTTP ${res.status}`] *)
Definition http_message (res : Response) : string :=
  "HTTP " +:+ pretty (res_status res).

(** [req] once [fetch] has settled; the response comes with the outcome of
    reading its body. *)
Definition req_settled (o : FetchOutcome) : result jsval :=
  match o with
  | Rejected e => Fail e
  | Resolved res =>
      if negb (res_ok res) then
        let detail := JStr (http_message res) in
        let detail :=
          match res_json res with
          | Ok body =>
              match opt_prop body "detail" with
              | Some d => if truthy d then d else detail
              | None => detail
              end
          | Fail _ => detail
          end in
        Fail (new_Error detail)
      else if (res_status res =? 204)%Z then Ok None
      else
        match res_json res with
        | Ok v => Ok (Some v)
        | Fail e => Fail e
        end
  end.

Definition req (path : string) (init : option RequestInit) : proc jsval :=
  Await {| fetch_url := API_BASE +:+ path;
           fetch_method := method <$> init;
           fetch_body := init ≫= body;
           fetch_headers := [("Content-Type", "application/json")] |}
        (fun o => lift (req_settled o)).

(** [URLSearchParams]: a list of name-value pairs. *)
Definition URLSearchParams : Type := list (string * string).

(** [sp.set(name, value)]: the first pair named [name] takes the value and
    the others go; without one, the pair is appended. *)
Fixpoint sp_set (name value : string) (sp : URLSearchParams) : URLSearchParams :=
  match sp with
  | [] => [(name, value)]
  | (k, v) :: rest =>
      if String.eqb k name
      then (k, value) :: filter (fun kv => negb (String.eqb (fst kv) name)) rest
      else (k, v) :: sp_set name value rest
  end.

Definition hex_digit (n : N) : ascii :=
  if (n <? 10)%N then byte (48 + n) else byte (55 + n).

(** The application/x-www-form-urlencoded byte serializer. *)
Definition encode_byte (c : ascii) : string :=
  let n := N_of_ascii c in
  if (n =? 32)%N then "+"
  else if ((n =? 42) || (n =? 45) || (n =? 46) || (n =? 95)
           || ((48 <=? n) && (n <=? 57))
           || ((65 <=? n) && (n <=? 90))
           || ((97 <=? n) && (n <=? 122)))%N
  then String c EmptyString
  else String "%" (String (hex_digit (n / 16)) (String (hex_digit (n mod 16)) EmptyString)).

Fixpoint percent_encode (s : string) : string :=
  match s with
  | EmptyString => EmptyString
  | String c r => encode_byte c +:+ percent_encode r
  end.

(** What the serializer writes for a name or a value given to [sp.set],
    which takes it as a USVString. *)
Definition urlencode (s : string) : string := percent_encode (USVString s).

(** [sp.toString()] *)
Definition sp_toString (sp : URLSearchParams) : string :=
  join "&" (map (fun kv => urlencode (fst kv) +:+ "=" +:+ urlencode (snd kv)) sp).

Record ListParams : Type := {
  limit : option Z;
  offset : option Z;
  status : option string;
  site_type : option string;
  q : option string
}.

(** The [URLSearchParams] that [listTasks] fills. *)
Definition listTasks_params (params : option ListParams) : URLSearchParams :=
  let sp : URLSearchParams := [] in
  let sp := match params ≫= limit with
            | Some n => sp_set "limit" (pretty n) sp
            | None => sp
            end in
  let sp := match params ≫= offset with
            | Some n => sp_set "offset" (pretty n) sp
            | None => sp
            end in
  let sp := match params ≫= status with
            | Some v => if truthy_string v then sp_set "status" v sp else sp
            | None => sp
            end in
  let sp := match params ≫= site_type with
            | Some v => if truthy_string v then sp_set "site_type" v sp else sp
            | None => sp
            end in
  let sp := match params ≫= q with
            | Some v => if truthy_string v then sp_set "q" v sp else sp
            | None => sp
            end in
  sp.

Definition listTasks_path (params : option ListParams) : string :=
  let qs := sp_toString (listTasks_params params) in
  "/tasks" +:+ (if truthy_string qs then "?" +:+ qs else "").

Definition listTasks (params : option ListParams) : proc jsval :=
  req (listTasks_path params) None.

Definition createTask (payload : TaskCreate) : proc jsval :=
  req "/tasks" (Some {| method := "POST"; body := Some (TaskCreate_json payload) |}).

Definition deleteTask (id : string) : proc jsval :=
  req ("/tasks/" +:+ id) (Some {| method := "DELETE"; body := None |}).

Definition updateStatus (id : string) (st : TaskStatus) : proc jsval :=
  req ("/tasks/" +:+ id)
      (Some {| method := "PATCH";
               body := Some (JObj [("status", JStr (TaskStatus_str st))]) |}).

(** *** The query, as the specification words it *)

(** The fields that are present, in the order [listTasks] visits them: a
    number that is given, a string that is given and not empty. *)
Definition number_field (k : string) (v : option Z) : URLSearchParams :=
  match v with Some n => [(k, pretty n)] | None => [] end.

Definition string_field (k : string) (v : option string) : URLSearchParams :=
  match v with
  | Some s => if is_empty s then [] else [(k, s)]
  | None => []
  end.

Definition present_fields (params : option ListParams) : URLSearchParams :=
  (number_field "limit" (params ≫= limit)
   ++ number_field "offset" (params ≫= offset)
   ++ string_field "status" (params ≫= status)
   ++ string_field "site_type" (params ≫= site_type)
   ++ string_field "q" (params ≫= q))%list.

(** [&k=v] with [v] encoded, or nothing for an empty [v]. *)
Definition query_part (k v : string) : string :=
  if is_empty v then "" else "&" +:+ k +:+ "=" +:+ urlencode v.

(** The bytes a serialized name or value is made of: letters, digits,
    [*], [-], [.], [_], and [+] and [%] of the encoding. *)
Definition query_safe (c : ascii) : bool :=
  let n := N_of_ascii c in
  ((n =? 42) || (n =? 45) || (n =? 46) || (n =? 95) || (n =? 43) || (n =? 37)
   || ((48 <=? n) && (n <=? 57))
   || ((65 <=? n) && (n <=? 90))
   || ((97 <=? n) && (n <=? 122)))%N.

Definition no_amp (c : ascii) : bool := negb (N_of_ascii c =? 38)%N.

(** The pieces of a query between its ampersands. *)
Fixpoint segments (s : string) : list string :=
  match s with
  | EmptyString => [EmptyString]
  | String c r =>
      if (N_of_ascii c =? 38)%N then EmptyString :: segments r
      else match segments r with
           | h :: t => String c h :: t
           | [] => [String c EmptyString]
           end
  end.

Definition is_hex (c : ascii) : bool :=
  let n := N_of_ascii c in
  (((48 <=? n) && (n <=? 57)) || ((65 <=? n) && (n <=? 70))
   || ((97 <=? n) && (n <=? 102)))%N.

Definition hex_value (c : ascii) : N :=
  let n := N_of_ascii c in
  if (n <? 58)%N then (n - 48)%N
  else if (n <? 71)%N then (n - 55)%N
  else (n - 87)%N.

(** What a parser of the query reads back from a serialized name or
    value: [+] is a space, [%] with two hexadecimal digits is the byte
    they write. *)
Fixpoint urldecode (s : string) : string :=
  match s with
  | EmptyString => EmptyString
  | String c r =>
      if (N_of_ascii c =? 43)%N then String (byte 32) (urldecode r)
      else if (N_of_ascii c =? 37)%N then
        match r with
        | String h (String l r') =>
            if is_hex h && is_hex l
            then String (byte (16 * hex_value h + hex_value l)) (urldecode r')
            else String c (urldecode r)
        | _ => String c (urldecode r)
        end
      else String c (urldecode r)
  end.

Definition no_eq (c : ascii) : bool := negb (N_of_ascii c =? 61)%N.

(** A piece of a query at its first [=]: the name before it and the value
    after it. *)
Fixpoint split_eq (s : string) : string * string :=
  match s with
  | EmptyString => (EmptyString, EmptyString)
  | String c r =>
      if (N_of_ascii c =? 61)%N then (EmptyString, r)
      else (String c (fst (split_eq r)), snd (split_eq r))
  end.

(** The application/x-www-form-urlencoded parser, which a server reads
    the query with: the pieces between the ampersands that are not empty,
    each split at its first [=] and decoded. *)
Definition parse_query (s : string) : list (string * string) :=
  map (fun piece => (urldecode (fst (split_eq piece)),
                     urldecode (snd (split_eq piece))))
      (List.filter (fun piece => negb (is_empty piece)) (segments s)).

(** A field as a server reads it: none for an empty value. *)
Definition read_field (k v : string) : list (string * string) :=
  if is_empty v then [] else [(k, v)].

End Transport.

End api.

(** ** The App component *)

Module App.

Record State : Type := {
  items : jsval;
  loading : bool;
  err : option string;
  q : string;
  siteType : string;
  status : string;
  name : string;
  url : string;
  createSiteType : SiteType;
  criteriaText : string
}.

Definition default_criteriaText : string :=
  "{" +:+ dquote +:+ "depth" +:+ dquote +:+ ": 1}".

(** The arguments of the [useState] calls. *)
Definition initial : State :=
  {| items := Some (JArr []); loading := false; err := None;
     q := ""; siteType := ""; status := "";
     name := ""; url := ""; createSiteType := other;
     criteriaText := default_criteriaText |}.

Definition apply (u : Setter) (s : State) : State :=
  let '(Build_State i l e fq ft fs n r t c) := s in
  match u with
  | setItems v => Build_State v l e fq ft fs n r t c
  | setLoading b => Build_State i b e fq ft fs n r t c
  | setErr m => Build_State i l m fq ft fs n r t c
  | setQ x => Build_State i l e x ft fs n r t c
  | setSiteType x => Build_State i l e fq x fs n r t c
  | setStatus x => Build_State i l e fq ft x n r t c
  | setName x => Build_State i l e fq ft fs x r t c
  | setUrl x => Build_State i l e fq ft fs n x t c
  | setCreateSiteType x => Build_State i l e fq ft fs n r x c
  | setCriteriaText x => Build_State i l e fq ft fs n r t x
  end.

(** [filters] ([useMemo]) *)
Definition filters (s : State) : api.ListParams :=
  {| api.limit := Some 50%Z;
     api.offset := Some 0%Z;
     api.q := or_undefined (trim (q s));
     api.site_type := or_undefined (siteType s);
     api.status := or_undefined (status s) |}.

Section Handlers.
Context `{Engine}.

(** The functions below are those of the render whose state is [s]: they
    read the state of that render, and their setter calls reach the
    component. *)

Definition load (s : State) : proc unit :=
  call (setLoading true);;
  call (setErr None);;
  finally
    (try_catch
       (data ← api.listTasks (Some (filters s));
        v ← lift (read_prop data "items");
        call (setItems v))
       (fun e => call (setErr (Some (nullish (message e) "Ошибка загрузки")))))
    (call (setLoading false)).

(** [criteriaText.trim() ? JSON.parse(criteriaText) : {}], [None] when
    [JSON.parse] throws. *)
Definition criteria_of (s : State) : option json :=
  if truthy_string (trim (criteriaText s))
  then JSON_parse (criteriaText s) else Some (JObj []).

(** The argument of [api.createTask]. *)
Definition payload_of (s : State) (criteria : json) : TaskCreate :=
  {| tc_name := trim (name s);
     tc_url := trim (url s);
     tc_site_type := createSiteType s;
     tc_criteria := criteria |}.

Definition onCreate (s : State) : proc unit :=
  call (setErr None);;
  if is_empty (trim (name s)) then call (setErr (Some "Введите название задачи"))
  else if is_empty (trim (url s)) then call (setErr (Some "Введите URL"))
  else
    match criteria_of s with
    | None => call (setErr (Some "Критерии должны быть валидным JSON"))
    | Some criteria =>
        call (setLoading true);;
        finally
          (try_catch
             (api.createTask (payload_of s criteria);;
              call (setName "");;
              call (setUrl "");;
              call (setCriteriaText default_criteriaText);;
              load s)
             (fun e => call (setErr (Some (nullish (message e) "Ошибка создания")))))
          (call (setLoading false))
    end.

(** [confirm] is the prompt of the browser, with the answer it gives. *)
Definition onDelete (confirm : string -> bool) (id : string) (s : State) : proc unit :=
  if negb (confirm "Удалить задачу?") then Return tt
  else
    call (setLoading true);;
    call (setErr None);;
    finally
      (try_catch
         (api.deleteTask id;;
          load s)
         (fun e => call (setErr (Some (nullish (message e) "Ошибка удаления")))))
      (call (setLoading false)).

Definition onStatus (id : string) (newStatus : TaskStatus) (s : State) : proc unit :=
  call (setLoading true);;
  call (setErr None);;
  finally
    (try_catch
       (api.updateStatus id newStatus;;
        load s)
       (fun e => call (setErr (Some (nullish (message e) "Ошибка обновления статуса")))))
    (call (setLoading false)).

(** *** Running the component *)

(** The component between two events: its state, the requests in flight,
    each with what resumes when it settles, and the requests issued so
    far, oldest first. *)
Record Config : Type := {
  state : State;
  pending : gmap nat (Fetch * (FetchOutcome -> proc unit));
  next : nat;
  log : list Fetch
}.

(** Run [p] up to its first [await] or to its end. *)
Fixpoint run (p : proc unit) (c : Config) : Config :=
  match p with
  | Return _ | Throw _ => c
  | Call u k =>
      run k {| state := apply u (state c); pending := pending c;
               next := next c; log := log c |}
  | Await f k =>
      {| state := state c;
         pending := <[next c := (f, k)]> (pending c);
         next := S (next c);
         log := log c ++ [f] |}
  end.

(** Call a function of the current render. *)
Definition invoke (h : State -> proc unit) (c : Config) : Config :=
  run (h (state c)) c.

(** The dependencies of the [useEffect]. *)
Definition deps (s : State) : option string * option string * option string :=
  (api.q (filters s), api.site_type (filters s), api.status (filters s)).

(** After a render: the effect calls [load] when a dependency changed. *)
Definition effect (before : State) (c : Config) : Config :=
  if decide (deps before = deps (state c)) then c else invoke load c.

Inductive Event : Type :=
| ChangeQ (v : string)
| ChangeSiteType (v : string)
| ChangeStatus (v : string)
| ChangeName (v : string)
| ChangeUrl (v : string)
| ChangeCreateSiteType (v : SiteType)
| ChangeCriteriaText (v : string)
| ClickCreate
| ClickRefresh
| ClickDelete (id : string) (answer : bool)
| SelectTaskStatus (id : string) (newStatus : TaskStatus)
| Settle (rid : nat) (o : FetchOutcome).

Definition input (u : Setter) (c : Config) : Config :=
  {| state := apply u (state c); pending := pending c;
     next := next c; log := log c |}.

(** A button with [disabled={loading}] takes no click while loading. *)
Definition click (h : State -> proc unit) (c : Config) : Config :=
  if loading (state c) then c else invoke h c.

Definition settle (rid : nat) (o : FetchOutcome) (c : Config) : Config :=
  match pending c !! rid with
  | Some (_, k) =>
      run (k o) {| state := state c; pending := delete rid (pending c);
                   next := next c; log := log c |}
  | None => c
  end.

Definition handle (e : Event) (c : Config) : Config :=
  match e with
  | ChangeQ v => input (setQ v) c
  | ChangeSiteType v => input (setSiteType v) c
  | ChangeStatus v => input (setStatus v) c
  | ChangeName v => input (setName v) c
  | ChangeUrl v => input (setUrl v) c
  | ChangeCreateSiteType v => input (setCreateSiteType v) c
  | ChangeCriteriaText v => input (setCriteriaText v) c
  | ClickCreate => click onCreate c
  | ClickRefresh => click load c
  | ClickDelete id answer => click (onDelete (fun _ => answer) id) c
  | SelectTaskStatus id newStatus => invoke (onStatus id newStatus) c
  | Settle rid o => settle rid o c
  end.

(** One event, run to its end: the handler, then the render and its
    effect. A request settles in one event, with the body of its response
    read. *)
Definition step (c : Config) (e : Event) : Config :=
  effect (state c) (handle e c).

(** The first render: the effect runs [load]. *)
Definition mount : Config :=
  invoke load {| state := initial; pending := ∅; next := 0; log := [] |}.

Definition steps (c : Config) (es : list Event) : Config :=
  fold_left step es c.

(** The event of the create form's site-type selector. *)
Definition selects_site_type (e : Event) : bool :=
  match e with
  | ChangeCreateSiteType _ => true
  | _ => false
  end.

(** The events that settle the requests [rs], in that order. *)
Definition settle_all (rs : list (nat * FetchOutcome)) : list Event :=
  map (fun r => Settle (fst r) (snd r)) rs.

(** The configurations the component can be in. *)
Inductive reachable : Config -> Prop :=
| reachable_mount : reachable mount
| reachable_step c e : reachable c -> reachable (step c e).

(** What a reload whose request settled as [o] ends with: the value of
    [data.items], or what was thrown. *)
Definition load_result (o : FetchOutcome) : result jsval :=
  match api.req_settled o with
  | Ok data => read_prop data "items"
  | Fail e => Fail e
  end.

(** The state after a reload whose request settled as [o]: the list is
    replaced on success, the error is set on failure, and loading ends. *)
Definition reloaded (o : FetchOutcome) (s : State) : State :=
  apply (setLoading false)
    (match load_result o with
     | Ok v => apply (setItems v) s
     | Fail e => apply (setErr (Some (nullish (message e) "Ошибка загрузки"))) s
     end).

(** The functions of the render with state [s] that issue requests. *)
Inductive handler (s : State) : proc unit -> Prop :=
| handler_load : handler s (load s)
| handler_onCreate : handler s (onCreate s)
| handler_onDelete confirm id : handler s (onDelete confirm id s)
| handler_onStatus id newStatus : handler s (onStatus id newStatus s).

(** [r] is a request of [p] in flight: the one [p] waits for first, or the
    one it waits for next, after the first settled as some [o1]. *)
Definition in_flight_of (p : proc unit)
    (r : Fetch * (FetchOutcome -> proc unit)) : Prop :=
  awaiting p = Some r \/
  exists f1 k1 o1, awaiting p = Some (f1, k1) /\ awaiting (k1 o1) = Some r.

(** A list request in flight: a reload, called by the effect or by the
    refresh button, or by an action after its own request succeeded. *)
Definition is_reload (r : Fetch * (FetchOutcome -> proc unit)) : Prop :=
  (exists params, request_of (api.listTasks params) = Some (fst r)) /\
  exists s p, handler s p /\ in_flight_of p r.

(** The message of the first local check of [onCreate] that fails. *)
Definition validation_error (s : State) : option string :=
  if is_empty (trim (name s)) then Some "Введите название задачи"
  else if is_empty (trim (url s)) then Some "Введите URL"
  else match criteria_of s with
       | None => Some "Критерии должны быть валидным JSON"
       | Some _ => None
       end.

(** The error an action shows for the result [r] of its request: none
    when it succeeded, the message of what was thrown, or the action's
    own text when that has no message. *)
Definition failure_message {A} (fallback : string) (r : result A) : option string :=
  match r with
  | Ok _ => None
  | Fail e => Some (nullish (message e) fallback)
  end.

(** The setters the functions of the component call. *)
Definition handler_setter (u : Setter) : Prop :=
  match u with
  | setItems _ | setLoading _ | setErr _
  | setName _ | setUrl _ | setCriteriaText _ => True
  | setQ _ | setSiteType _ | setStatus _ | setCreateSiteType _ => False
  end.

(** What resumes a request in flight calls setters satisfying [P] only. *)
Definition pending_calls_only (P : Setter -> Prop) (c : Config) : Prop :=
  forall rid f k, pending c !! rid = Some (f, k) -> forall o, calls_only P (k o).

(** The setters that leave [field] as it is. *)
Definition keeps {X} (field : State -> X) (u : Setter) : Prop :=
  forall s, field (apply u s) = field s.

(** *** The actions, for the statements about them *)

(** The state once the setter calls [p] makes before its first [await]
    are done. *)
Fixpoint after_calls (p : proc unit) (s : State) : State :=
  match p with
  | Call u k => after_calls k (apply u s)
  | _ => s
  end.

(** The name, the URL and the criteria text back to their defaults. *)
Definition clear_form (s : State) : State :=
  apply (setCriteriaText default_criteriaText)
    (apply (setUrl "") (apply (setName "") s)).

(** The three functions that change the backend, each with the text it
    shows for a failure that has no message, and with what it does to the
    form once its request has succeeded. *)
Inductive action (s : State) : proc unit -> string -> (State -> State) -> Prop :=
| action_onCreate :
    action s (onCreate s) "Ошибка создания" clear_form
| action_onDelete confirm id :
    action s (onDelete confirm id s) "Ошибка удаления" (fun s' => s')
| action_onStatus id newStatus :
    action s (onStatus id newStatus s) "Ошибка обновления статуса" (fun s' => s').

(** A request of the transport, as the four operations build them: to the
    tasks resource, with the JSON content type, a body for POST and PATCH
    and none for GET and DELETE. *)
Definition tasks_request (f : Fetch) : Prop :=
  (exists rest, fetch_url f = api.API_BASE +:+ "/tasks" +:+ rest) /\
  fetch_headers f = [("Content-Type", "application/json")] /\
  ((fetch_method f = None /\ fetch_body f = None) \/
   (fetch_method f = Some "POST" /\ exists b, fetch_body f = Some b) \/
   (fetch_method f = Some "DELETE" /\ fetch_body f = None) \/
   (fetch_method f = Some "PATCH" /\ exists b, fetch_body f = Some b)).

(** Every request in flight is a reload, or the request an action has
    just issued. *)
Definition in_flight_known (c : Config) : Prop :=
  forall rid r, pending c !! rid = Some r ->
    is_reload r \/
    exists s p fallback reset, action s p fallback reset /\ awaiting p = Some r.

(** Every request issued is of the transport and every request in flight
    is known. *)
Definition well_formed (c : Config) : Prop :=
  in_flight_known c /\ Forall tasks_request (log c).

(** The clicks on the buttons that are disabled while loading. *)
Definition is_click (e : Event) : bool :=
  match e with
  | ClickCreate | ClickRefresh | ClickDelete _ _ => true
  | _ => false
  end.

(** The three filter inputs. *)
Definition filter_inputs (s : State) : string * string * string :=
  (q s, siteType s, status s).

(** The events of the three filter inputs. *)
Definition edits_filter (e : Event) : bool :=
  match e with
  | ChangeQ _ | ChangeSiteType _ | ChangeStatus _ => true
  | _ => false
  end.

End Handlers.

End App.

(** ** An engine for the examples *)

(** [JSON.parse] on a part of JSON: objects, arrays, strings without
    escapes, integers of at most fifteen digits, [true], [false] and
    [null]. On a text outside of that part it answers [None]. The theorems
    hold for every engine; this one runs the examples. *)
Module Sample.

Definition is_char (n : N) (c : ascii) : bool := (N_of_ascii c =? n)%N.

Definition is_json_space (c : ascii) : bool :=
  is_char 32 c || is_char 9 c || is_char 10 c || is_char 13 c.

Definition is_digit (c : ascii) : bool :=
  ((48 <=? N_of_ascii c) && (N_of_ascii c <=? 57))%N.

Fixpoint skip_space (s : string) : string :=
  match s with
  | String c r => if is_json_space c then skip_space r else s
  | EmptyString => s
  end.

Fixpoint take_digits (s : string) : string * string :=
  match s with
  | String c r =>
      if is_digit c
      then let '(d, rest) := take_digits r in (String c d, rest)
      else (EmptyString, s)
  | EmptyString => (EmptyString, EmptyString)
  end.

(** The text of a string up to its closing quote. *)
Fixpoint take_string (s : string) : option (string * string) :=
  match s with
  | EmptyString => None
  | String c r =>
      if is_char 34 c then Some (EmptyString, r)
      else if is_char 92 c || (N_of_ascii c <? 32)%N then None
      else
        match take_string r with
        | Some (t, rest) => Some (String c t, rest)
        | None => None
        end
  end.

Definition parse_number (s : string) : option (json * string) :=
  let '(neg, s1) :=
    match s with
    | String c r => if is_char 45 c then (true, r) else (false, s)
    | EmptyString => (false, s)
    end in
  let '(d, rest) := take_digits s1 in
  let fraction :=
    match rest with
    | String c _ => is_char 46 c || is_char 101 c || is_char 69 c
    | EmptyString => false
    end in
  if fraction then None
  else
    match d with
    | EmptyString => None
    | String c EmptyString =>
        Some (JNum (if is_char 48 c then d else if neg then "-" +:+ d else d), rest)
    | String c _ =>
        if is_char 48 c || Nat.ltb 15 (String.length d) then None
        else Some (JNum (if neg then "-" +:+ d else d), rest)
    end.

(** A property that is set again keeps its place and takes the value. *)
Fixpoint obj_set (k : string) (v : json) (fields : list (string * json)) :=
  match fields with
  | [] => [(k, v)]
  | (k', v') :: rest =>
      if String.eqb k k' then (k, v) :: rest else (k', v') :: obj_set k v rest
  end.

Fixpoint parse_value (fuel : nat) (s : string) : option (json * string) :=
  match fuel with
  | O => None
  | S n =>
      match skip_space s with
      | EmptyString => None
      | String c r =>
          if is_char 123 c then
            match skip_space r with
            | String c' r' =>
                if is_char 125 c' then Some (JObj [], r')
                else parse_members n (String c' r') []
            | EmptyString => None
            end
          else if is_char 91 c then
            match skip_space r with
            | String c' r' =>
                if is_char 93 c' then Some (JArr [], r')
                else parse_elements n (String c' r') []
            | EmptyString => None
            end
          else if is_char 34 c then
            match take_string r with
            | Some (t, rest) => Some (JStr t, rest)
            | None => None
            end
          else
            match strip_prefix "true" (String c r),
                  strip_prefix "false" (String c r),
                  strip_prefix "null" (String c r) with
            | Some rest, _, _ => Some (JBool true, rest)
            | _, Some rest, _ => Some (JBool false, rest)
            | _, _, Some rest => Some (JNull, rest)
            | _, _, _ => parse_number (String c r)
            end
      end
  end
with parse_elements (fuel : nat) (s : string) (acc : list json)
  : option (json * string) :=
  match fuel with
  | O => None
  | S n =>
      match parse_value n s with
      | Some (v, rest) =>
          match skip_space rest with
          | String c r =>
              if is_char 44 c then parse_elements n r (acc ++ [v])
              else if is_char 93 c then Some (JArr (acc ++ [v]), r)
              else None
          | EmptyString => None
          end
      | None => None
      end
  end
with parse_members (fuel : nat) (s : string) (acc : list (string * json))
  : option (json * string) :=
  match fuel with
  | O => None
  | S n =>
      match skip_space s with
      | String c r =>
          if is_char 34 c then
            match take_string r with
            | Some (k, rest) =>
                match skip_space rest with
                | String c1 r1 =>
                    if is_char 58 c1 then
                      match parse_value n r1 with
                      | Some (v, rest2) =>
                          match skip_space rest2 with
                          | String c2 r2 =>
                              if is_char 44 c2
                              then parse_members n r2 (obj_set k v acc)
                              else if is_char 125 c2
                              then Some (JObj (obj_set k v acc), r2)
                              else None
                          | EmptyString => None
                          end
                      | None => None
                      end
                    else None
                | EmptyString => None
                end
            | None => None
            end
          else None
      | EmptyString => None
      end
  end.

Definition parse (s : string) : option json :=
  match parse_value (S (String.length s)) s with
  | Some (v, rest) => if is_empty (skip_space rest) then Some v else None
  | None => None
  end.

(** The message V8 gives. *)
Definition type_error (v : jsval) (k : string) : exn :=
  Error ("Cannot read properties of "
         +:+ (match v with None => "undefined" | Some _ => "null" end)
         +:+ " (reading '" +:+ k +:+ "')").

#[export] Instance engine : Engine :=
  {| JSON_parse := parse;
     TypeError_of_read := type_error;
     TypeError_of_ToString :=
       fun _ => Error "Cannot convert object to primitive value" |}.

(** A task as the backend sends it. *)
Definition task (id name url : string) (t : SiteType) (st : TaskStatus) : json :=
  JObj [ ("id", JStr id); ("name", JStr name); ("url", JStr url);
         ("site_type", JStr (SiteType_str t));
         ("status", JStr (TaskStatus_str st));
         ("criteria", JObj [("depth", JNum "1")]);
         ("created_at", JStr "2025-01-01T10:00:00");
         ("updated_at", JStr "2025-01-01T10:00:00") ].

(** A page of tasks: the body of a list response. *)
Definition page (tasks : list json) : json :=
  JObj [ ("items", JArr tasks);
         ("total", JNum (pretty (Z.of_nat (length tasks))));
         ("limit", JNum "50"); ("offset", JNum "0") ].

Definition responds (code : Z) (body : json) : FetchOutcome :=
  Resolved {| res_status := code; res_json := Ok body |}.

Definition alpha : json :=
  task "1" "alpha" "https://a.example.com" news created.
Definition abacus : json :=
  task "2" "abacus" "https://b.example.com" other running.

(** The component once the list of its first render has arrived, empty. *)
Definition ready : App.Config :=
  App.step App.mount (App.Settle 0 (responds 200 (page []))).

(** The component showing two tasks. *)
Definition listed : App.Config :=
  App.step App.mount (App.Settle 0 (responds 200 (page [alpha; abacus]))).

(** The create form filled in. *)
Definition filled : App.Config :=
  App.steps ready
    [App.ChangeName " Catalog "; App.ChangeUrl "https://example.com";
     App.ChangeCreateSiteType ecommerce].

(** The create button clicked on the filled form: request 1 is in flight. *)
Definition creating : App.Config := App.step filled App.ClickCreate.

(** Two filter edits in a row: requests 1 (for a) and 2 (for ab) are in
    flight together. *)
Definition typing : App.Config :=
  App.steps ready [App.ChangeQ "a"; App.ChangeQ "ab"].

(** The body of a validation error as FastAPI sends it. *)
Definition unprocessable : json :=
  JObj [ ("detail",
          JArr [ JObj [ ("loc", JArr [JStr "body"; JStr "url"]);
                        ("msg", JStr "invalid or missing URL scheme");
                        ("type", JStr "value_error.url.scheme") ] ]) ].

Definition not_found : json := JObj [("detail", JStr "not found")].

End Sample.

(** * Properties *)

(** ** Strings *)

Lemma strip_prefix_app (w s r : string) :
  strip_prefix w s = Some r <-> s = w +:+ r.
Proof.
  revert s; induction w as [|a w IH]; intros s; simpl.
  - split; [intros [= ->] | intros ->]; reflexivity.
  - destruct s as [|b s]; [split; discriminate|].
    destruct (Ascii.eqb_spec a b) as [->|Hab].
    + rewrite IH. split; [intros ->; reflexivity | intros [= ->]; reflexivity].
    + split; [discriminate | intros [= -> _]; contradiction].
Qed.

Lemma strip_first_Some (ws : list string) (s r : string) :
  strip_first ws s = Some r -> exists w, In w ws /\ s = w +:+ r.
Proof.
  induction ws as [|w ws IH]; simpl; [discriminate|].
  destruct (strip_prefix w s) as [r'|] eqn:E.
  - intros [= ->]. exists w. split; [now left | now apply strip_prefix_app].
  - intros [w' [Hin ->]]%IH. exists w'. split; [now right | reflexivity].
Qed.

Lemma strip_first_In (ws : list string) (w r : string) :
  In w ws -> exists r', strip_first ws (w +:+ r) = Some r'.
Proof.
  induction ws as [|w0 ws IH]; simpl; [contradiction|].
  intros Hin. destruct (strip_prefix w0 (w +:+ r)) as [r'|] eqn:E; [eauto|].
  destruct Hin as [->|Hin]; [|auto].
  assert (strip_prefix w (w +:+ r) = Some r) as E' by now apply strip_prefix_app.
  congruence.
Qed.

(** Two strings with a common extension: one is a prefix of the other. *)
Lemma app_eq_prefix (w w' r r' : string) :
  w +:+ r = w' +:+ r' ->
  (exists d, strip_prefix w w' = Some d) \/ (exists d, strip_prefix w' w = Some d).
Proof.
  revert w'; induction w as [|a w IH]; intros w'; simpl.
  - intros _. left. eauto.
  - destruct w' as [|b w']; simpl; [intros _; right; eauto|].
    intros [= -> E]. rewrite Ascii.eqb_refl. auto.
Qed.

Lemma white_space_chars_prefix_free : prefix_free white_space_chars = true.
Proof. vm_compute. reflexivity. Qed.

Lemma white_space_chars_unique (w w' r r' : string) :
  In w white_space_chars -> In w' white_space_chars ->
  w +:+ r = w' +:+ r' -> w = w' /\ r = r'.
Proof.
  intros Hw Hw' E.
  assert (w = w') as ->.
  { pose proof white_space_chars_prefix_free as F. unfold prefix_free in F.
    rewrite forallb_forall in F.
    destruct (app_eq_prefix _ _ _ _ E) as [[d Hd]|[d Hd]].
    - specialize (F w Hw). rewrite forallb_forall in F. specialize (F w' Hw').
      rewrite Hd in F. now apply String.eqb_eq.
    - specialize (F w' Hw'). rewrite forallb_forall in F. specialize (F w Hw).
      rewrite Hd in F. symmetry. now apply String.eqb_eq. }
  split; [reflexivity|].
  assert (strip_prefix w' (w' +:+ r) = Some r) as E1 by now apply strip_prefix_app.
  assert (strip_prefix w' (w' +:+ r) = Some r') as E2 by now apply strip_prefix_app.
  congruence.
Qed.

Lemma white_space_prefix_Some (s r : string) :
  white_space_prefix s = Some r <->
  exists w, In w white_space_chars /\ s = w +:+ r.
Proof.
  split; [apply strip_first_Some|].
  intros [w [Hin ->]].
  destruct (strip_first_In white_space_chars w r Hin) as [r' E].
  unfold white_space_prefix. rewrite E.
  apply strip_first_Some in E as [w' [Hin' E]].
  destruct (white_space_chars_unique _ _ _ _ Hin Hin' E) as [_ ->]. reflexivity.
Qed.

Lemma white_space_chars_nonempty (w : string) :
  In w white_space_chars -> 0 < String.length w.
Proof.
  intros Hin.
  assert (forallb (fun w => negb (is_empty w)) white_space_chars = true) as F
    by (vm_compute; reflexivity).
  rewrite forallb_forall in F. specialize (F w Hin).
  destruct w; [discriminate | simpl; lia].
Qed.

Lemma length_append (a b : string) :
  String.length (a +:+ b) = String.length a + String.length b.
Proof. induction a as [|c a IH]; simpl; [reflexivity | now rewrite IH]. Qed.

Lemma white_space_prefix_shorter (s r : string) :
  white_space_prefix s = Some r -> String.length r < String.length s.
Proof.
  intros [w [Hin ->]]%white_space_prefix_Some.
  rewrite length_append. pose proof (white_space_chars_nonempty w Hin). lia.
Qed.

Lemma drop_white_space_done (n : nat) (s : string) :
  String.length s <= n -> white_space_prefix (drop_white_space n s) = None.
Proof.
  revert s; induction n as [|n IH]; intros s Hn; simpl.
  - destruct s; [reflexivity | simpl in Hn; lia].
  - destruct (white_space_prefix s) as [r|] eqn:E; [|exact E].
    apply IH. apply white_space_prefix_shorter in E. lia.
Qed.

(** [trimStart] leaves no white space in front. *)
Lemma trimStart_done (s : string) : white_space_prefix (trimStart s) = None.
Proof. apply drop_white_space_done. lia. Qed.

Lemma drop_white_space_only (n : nat) (s : string) :
  drop_white_space n s = EmptyString -> white_space_only s.
Proof.
  revert s; induction n as [|n IH]; intros s; simpl.
  - intros ->. constructor.
  - destruct (white_space_prefix s) as [r|] eqn:E.
    + intros Hr%IH. apply white_space_prefix_Some in E as [w [Hin ->]].
      now constructor.
    + intros ->. constructor.
Qed.

Lemma white_space_only_drop (n : nat) (s : string) :
  white_space_only s -> String.length s <= n ->
  drop_white_space n s = EmptyString.
Proof.
  intros Hs; revert n; induction Hs as [|w r Hin Hr IH]; intros n Hn.
  - destruct n; reflexivity.
  - pose proof (white_space_chars_nonempty w Hin) as Hw.
    rewrite length_append in Hn.
    destruct n as [|n]; [lia|]. simpl.
    assert (white_space_prefix (w +:+ r) = Some r) as ->
      by (apply white_space_prefix_Some; eauto).
    apply IH. lia.
Qed.

Lemma trimStart_empty (s : string) :
  trimStart s = EmptyString <-> white_space_only s.
Proof.
  split; [apply drop_white_space_only|].
  intros Hs. now apply white_space_only_drop.
Qed.

Lemma is_empty_true (s : string) : is_empty s = true <-> s = EmptyString.
Proof. destruct s; simpl; split; congruence. Qed.

Lemma trimEnd_empty (s : string) :
  trimEnd s = EmptyString <-> trimStart s = EmptyString.
Proof.
  destruct s as [|c r]; [split; reflexivity|].
  cbn [trimEnd]. destruct (is_empty (trimStart (String c r))) eqn:E.
  - apply is_empty_true in E. now split.
  - split; [discriminate|]. intros E'. rewrite E' in E. discriminate.
Qed.

(** [s.trim()] is empty exactly when [s] is empty or white space only. *)
Lemma trim_empty (s : string) : trim s = EmptyString <-> blank s.
Proof.
  unfold trim, blank. rewrite trimEnd_empty, !trimStart_empty.
  split.
  - intros Hs. apply trimStart_empty.
    inversion Hs as [E|w r Hin Hr E]; [reflexivity|].
    pose proof (trimStart_done s) as F. rewrite <- E in F.
    assert (white_space_prefix (w +:+ r) = Some r) as G
      by (apply white_space_prefix_Some; eauto).
    congruence.
  - intros Hs. apply trimStart_empty in Hs. rewrite Hs. constructor.
Qed.

Lemma blank_is_empty_trim (s : string) : is_empty (trim s) = true <-> blank s.
Proof. rewrite is_empty_true. apply trim_empty. Qed.

(** ** The query of [listTasks] *)

Lemma append_String (c : ascii) (s t : string) :
  String c s +:+ t = String c (s +:+ t).
Proof. reflexivity. Qed.

Lemma append_Empty (t : string) : "" +:+ t = t.
Proof. reflexivity. Qed.

Lemma append_nil_r (s : string) : s +:+ "" = s.
Proof.
  induction s as [|c s IH]; [reflexivity|].
  now rewrite append_String, IH.
Qed.

Lemma append_assoc (a b c : string) : (a +:+ b) +:+ c = a +:+ (b +:+ c).
Proof.
  induction a as [|x a IH]; [reflexivity|].
  now rewrite !append_String, IH.
Qed.

Lemma encode_byte_nonempty (c : ascii) : is_empty (api.encode_byte c) = false.
Proof.
  unfold api.encode_byte.
  repeat match goal with |- context [if ?b then _ else _] => destruct b end;
    reflexivity.
Qed.

Lemma is_empty_append (a b : string) :
  is_empty (a +:+ b) = is_empty a && is_empty b.
Proof. destruct a; [reflexivity|]. rewrite append_String. reflexivity. Qed.

Lemma all_bytes_append (P : ascii -> bool) (a b : string) :
  all_bytes P (a +:+ b) = all_bytes P a && all_bytes P b.
Proof.
  induction a as [|c a IH]; [reflexivity|].
  rewrite append_String. cbn [all_bytes]. rewrite IH. now rewrite andb_assoc.
Qed.

Lemma append_inj_l (a x y : string) : a +:+ x = a +:+ y -> x = y.
Proof.
  induction a as [|c a IH]; [now rewrite !append_Empty|].
  rewrite !append_String. intros [= E]. auto.
Qed.

(** *** The serializer *)

Lemma USVString_is_empty (v : string) : is_empty (USVString v) = is_empty v.
Proof.
  destruct v as [|a [|b [|c r]]]; cbn [USVString]; try reflexivity.
  destruct (lone_surrogate a b c); reflexivity.
Qed.

Lemma percent_encode_is_empty (v : string) :
  is_empty (api.percent_encode v) = is_empty v.
Proof.
  destruct v as [|c r]; [reflexivity|]. cbn [api.percent_encode is_empty].
  now rewrite is_empty_append, encode_byte_nonempty.
Qed.

Lemma urlencode_is_empty (v : string) : is_empty (api.urlencode v) = is_empty v.
Proof.
  unfold api.urlencode. now rewrite percent_encode_is_empty, USVString_is_empty.
Qed.

Lemma urlencode_empty (v : string) : api.urlencode v = "" <-> v = "".
Proof. now rewrite <- !is_empty_true, urlencode_is_empty. Qed.

(** Each byte is written with the bytes of the query that are no
    separator, and read back as it was. *)
Lemma encode_byte_decode (c : ascii) (r : string) :
  all_bytes api.query_safe (api.encode_byte c) = true /\
  api.urldecode (api.encode_byte c +:+ r) = String c (api.urldecode r).
Proof.
  destruct c as [[] [] [] [] [] [] [] []]; split; reflexivity.
Qed.

Lemma urldecode_percent_encode (v : string) :
  api.urldecode (api.percent_encode v) = v.
Proof.
  induction v as [|c v IH]; [reflexivity|]. cbn [api.percent_encode].
  rewrite (proj2 (encode_byte_decode c _)). now rewrite IH.
Qed.

Lemma urldecode_urlencode (v : string) :
  api.urldecode (api.urlencode v) = USVString v.
Proof. apply urldecode_percent_encode. Qed.

Lemma percent_encode_safe_bytes (v : string) :
  all_bytes api.query_safe (api.percent_encode v) = true.
Proof.
  induction v as [|c v IH]; [reflexivity|]. cbn [api.percent_encode].
  rewrite all_bytes_append, IH, (proj1 (encode_byte_decode c "")). reflexivity.
Qed.

Lemma urlencode_safe_bytes (v : string) :
  all_bytes api.query_safe (api.urlencode v) = true.
Proof. apply percent_encode_safe_bytes. Qed.

Lemma urlencode_inj (v w : string) :
  api.urlencode v = api.urlencode w <-> USVString v = USVString w.
Proof.
  split.
  - intros E. rewrite <- (urldecode_urlencode v), <- (urldecode_urlencode w).
    now rewrite E.
  - unfold api.urlencode. now intros ->.
Qed.

Lemma query_part_USVString (k v w : string) :
  USVString v = USVString w -> api.query_part k v = api.query_part k w.
Proof.
  intros E. unfold api.query_part, api.urlencode.
  now rewrite <- (USVString_is_empty v), <- (USVString_is_empty w), E.
Qed.

(** *** The parser *)

Lemma query_safe_no_separator (x : string) :
  all_bytes api.query_safe x = true ->
  all_bytes api.no_amp x = true /\ all_bytes api.no_eq x = true.
Proof.
  induction x as [|c x IH]; [split; reflexivity|]. cbn [all_bytes].
  intros [Hc Hx]%andb_true_iff. destruct (IH Hx) as [-> ->].
  rewrite !andb_true_r. revert Hc.
  destruct c as [[] [] [] [] [] [] [] []]; cbv; intuition congruence.
Qed.

Lemma segments_single (x : string) :
  all_bytes api.no_amp x = true -> api.segments x = [x].
Proof.
  induction x as [|c x IH]; [reflexivity|]. cbn [all_bytes api.segments].
  intros [Hc Hx]%andb_true_iff. unfold api.no_amp in Hc.
  apply negb_true_iff in Hc. now rewrite Hc, IH.
Qed.

Lemma segments_app_amp (x rest : string) :
  all_bytes api.no_amp x = true ->
  api.segments (x +:+ "&" +:+ rest) = x :: api.segments rest.
Proof.
  induction x as [|c x IH]; [reflexivity|]. cbn [all_bytes].
  intros [Hc Hx]%andb_true_iff. rewrite append_String. cbn [api.segments].
  unfold api.no_amp in Hc. apply negb_true_iff in Hc. now rewrite Hc, IH.
Qed.

Lemma segments_join (l : list string) :
  l <> [] -> Forall (fun x => all_bytes api.no_amp x = true) l ->
  api.segments (join "&" l) = l.
Proof.
  induction l as [|x l IH]; [congruence|]. intros _ Hl.
  apply Forall_cons in Hl as [Hx Hl]. destruct l as [|y l].
  - now apply segments_single.
  - change (join "&" (x :: y :: l)) with (x +:+ "&" +:+ join "&" (y :: l)).
    rewrite segments_app_amp by exact Hx. now rewrite IH.
Qed.

Lemma split_eq_append (n v : string) :
  all_bytes api.no_eq n = true -> api.split_eq (n +:+ "=" +:+ v) = (n, v).
Proof.
  induction n as [|c n IH]; [reflexivity|]. cbn [all_bytes].
  intros [Hc Hn]%andb_true_iff. rewrite append_String. cbn [api.split_eq].
  unfold api.no_eq in Hc. apply negb_true_iff in Hc. now rewrite Hc, IH.
Qed.

(** One name and value as [sp.toString()] writes them. *)
Lemma serialized_pair (k v : string) :
  let piece := api.urlencode k +:+ "=" +:+ api.urlencode v in
  is_empty piece = false /\
  all_bytes api.no_amp piece = true /\
  api.split_eq piece = (api.urlencode k, api.urlencode v).
Proof.
  cbn zeta.
  destruct (query_safe_no_separator _ (urlencode_safe_bytes k)) as [Hka Hke].
  destruct (query_safe_no_separator _ (urlencode_safe_bytes v)) as [Hva _].
  split; [|split].
  - rewrite !is_empty_append. cbn [is_empty]. now rewrite andb_false_r.
  - rewrite !all_bytes_append, Hka, Hva. reflexivity.
  - now apply split_eq_append.
Qed.

(** What [sp.toString()] writes is read back by the parser as the names
    and values that were set, each as a USVString. *)
Lemma parse_query_sp_toString (sp : api.URLSearchParams) :
  api.parse_query (api.sp_toString sp)
  = map (fun kv => (USVString (fst kv), USVString (snd kv))) sp.
Proof.
  destruct sp as [|kv0 sp0]; [reflexivity|].
  unfold api.parse_query, api.sp_toString.
  rewrite segments_join.
  - generalize (kv0 :: sp0). clear kv0 sp0.
    intros sp. induction sp as [|[k v] sp IH]; [reflexivity|].
    destruct (serialized_pair k v) as (Hne & _ & Hsplit). cbn zeta in *.
    cbn [map List.filter fst snd]. rewrite Hne. cbn [negb map].
    rewrite Hsplit, IH. cbn [fst snd]. now rewrite !urldecode_urlencode.
  - discriminate.
  - apply Forall_forall. intros x Hx. apply list_elem_of_In, in_map_iff in Hx.
    destruct Hx as ([k v] & <- & _). apply (serialized_pair k v).
Qed.

Lemma listTasks_params_present (params : option api.ListParams) :
  api.listTasks_params params = api.present_fields params.
Proof.
  unfold api.listTasks_params, api.present_fields.
  destruct params as [[l o st ty qq]|]; [|reflexivity]. cbn [mbind option_bind
    api.limit api.offset api.status api.site_type api.q].
  destruct l as [l|], o as [o|], st as [[|? ?]|], ty as [[|? ?]|], qq as [[|? ?]|];
    reflexivity.
Qed.

Lemma string_field_or_undefined (k v : string) :
  api.string_field k (or_undefined v) = if is_empty v then [] else [(k, v)].
Proof. destruct v; reflexivity. Qed.

Lemma filters_path (s : App.State) :
  api.listTasks_path (Some (App.filters s)) =
  "/tasks?limit=50&offset=0"
  +:+ api.query_part "status" (App.status s)
  +:+ api.query_part "site_type" (App.siteType s)
  +:+ api.query_part "q" (trim (App.q s)).
Proof.
  unfold api.listTasks_path. rewrite listTasks_params_present.
  unfold api.present_fields, App.filters, api.query_part.
  cbn [mbind option_bind api.limit api.offset api.status api.site_type api.q].
  rewrite !string_field_or_undefined.
  destruct (is_empty (App.status s)), (is_empty (App.siteType s)),
    (is_empty (trim (App.q s)));
    cbn [api.number_field app api.sp_toString map join fst snd];
    change (pretty 50%Z) with "50"; change (pretty 0%Z) with "0".
  all: change (api.urlencode "limit") with "limit";
    change (api.urlencode "50") with "50";
    change (api.urlencode "offset") with "offset";
    change (api.urlencode "0") with "0";
    change (api.urlencode "status") with "status";
    change (api.urlencode "site_type") with "site_type";
    change (api.urlencode "q") with "q".
  all: rewrite ?append_assoc, ?append_String, ?append_Empty, ?append_nil_r.
  all: cbn [truthy_string is_empty negb]; reflexivity.
Qed.

Section Controller.
Context `{Engine}.

Lemma present_fields_names (params : option api.ListParams) :
  map (fun kv => (USVString (fst kv), USVString (snd kv))) (api.present_fields params)
  = map (fun kv => (fst kv, USVString (snd kv))) (api.present_fields params).
Proof.
  unfold api.present_fields.
  destruct params as [[l o st ty qq]|]; [|reflexivity].
  cbn [mbind option_bind api.limit api.offset api.status api.site_type api.q].
  destruct l, o, st as [[|? ?]|], ty as [[|? ?]|], qq as [[|? ?]|]; reflexivity.
Qed.

(** The path of [listTasks], read back by a parser of the query. *)
Lemma listTasks_path_parsed (params : option api.ListParams) :
  exists qs,
    api.listTasks_path params = "/tasks" +:+ (if is_empty qs then "" else "?" +:+ qs) /\
    api.parse_query qs
    = map (fun kv => (fst kv, USVString (snd kv))) (api.present_fields params).
Proof.
  exists (api.sp_toString (api.listTasks_params params)). split.
  - unfold api.listTasks_path, truthy_string.
    now destruct (is_empty (api.sp_toString (api.listTasks_params params))).
  - now rewrite parse_query_sp_toString, listTasks_params_present, present_fields_names.
Qed.

Lemma read_field_values (k v : string) :
  Forall (fun kv : string * string => snd kv <> "") (api.read_field k v).
Proof.
  unfold api.read_field. destruct v as [|c r]; cbn [is_empty]; repeat constructor.
  discriminate.
Qed.

(** The query of the filters, read back by a parser of the query. *)
Lemma filters_query_parsed (s : App.State) :
  exists qs,
    api.listTasks_path (Some (App.filters s)) = "/tasks?" +:+ qs /\
    api.parse_query qs =
      ("limit", "50") :: ("offset", "0")
      :: (api.read_field "status" (USVString (App.status s))
          ++ api.read_field "site_type" (USVString (App.siteType s))
          ++ api.read_field "q" (USVString (trim (App.q s))))%list.
Proof.
  destruct (listTasks_path_parsed (Some (App.filters s))) as (qs & Hpath & Hparse).
  assert (api.parse_query qs =
      ("limit", "50") :: ("offset", "0")
      :: (api.read_field "status" (USVString (App.status s))
          ++ api.read_field "site_type" (USVString (App.siteType s))
          ++ api.read_field "q" (USVString (trim (App.q s))))%list) as Hfields.
  { rewrite Hparse. unfold api.present_fields, App.filters, api.read_field.
    cbn [mbind option_bind api.limit api.offset api.status api.site_type api.q].
    rewrite !string_field_or_undefined, !USVString_is_empty.
    destruct (is_empty (App.status s)), (is_empty (App.siteType s)),
      (is_empty (trim (App.q s))); reflexivity. }
  exists qs. split; [|exact Hfields].
  rewrite Hpath. destruct qs as [|c qs]; [discriminate Hfields|].
  cbn [is_empty]. now rewrite !append_String, !append_Empty.
Qed.

(** C2: the query that [listTasks] builds holds the present fields only,
    and a server that parses it reads exactly these: a string field that
    is [undefined] or empty is left out, the others arrive with their
    value (as a USVString). For the filters of the component the path is
    [/tasks?limit=50&offset=0] followed by one [&k=v] for each of
    [status], [site_type] and the trimmed [q] that is not empty; parsed,
    it gives limit 50, offset 0 and these fields, none with an empty
    value. A value is written with letters, digits and [* - . _ + %]
    only, reads back as it was, and is written as the empty string only
    when it is empty. *)
Theorem listTasks_query_only_present_fields :
  (forall params : option api.ListParams,
      api.listTasks_params params = api.present_fields params) /\
  (forall params : option api.ListParams,
      exists qs,
        api.listTasks params
        = api.req ("/tasks" +:+ (if is_empty qs then "" else "?" +:+ qs)) None /\
        api.parse_query qs
        = map (fun kv => (fst kv, USVString (snd kv))) (api.present_fields params)) /\
  (forall s : App.State,
      api.listTasks (Some (App.filters s)) =
      api.req ("/tasks?limit=50&offset=0"
               +:+ api.query_part "status" (App.status s)
               +:+ api.query_part "site_type" (App.siteType s)
               +:+ api.query_part "q" (trim (App.q s))) None) /\
  (forall s : App.State,
      exists qs,
        api.listTasks (Some (App.filters s)) = api.req ("/tasks?" +:+ qs) None /\
        api.parse_query qs =
          ("limit", "50") :: ("offset", "0")
          :: (api.read_field "status" (USVString (App.status s))
              ++ api.read_field "site_type" (USVString (App.siteType s))
              ++ api.read_field "q" (USVString (trim (App.q s))))%list /\
        Forall (fun kv => snd kv <> "") (api.parse_query qs)) /\
  (forall k v : string, api.query_part k v = "" <-> v = "") /\
  (forall v : string,
      all_bytes api.query_safe (api.urlencode v) = true /\
      api.urldecode (api.urlencode v) = USVString v /\
      (api.urlencode v = "" <-> v = "")).
Proof.
  split; [exact listTasks_params_present|]. split; [|split; [|split; [|split]]].
  - intros params. destruct (listTasks_path_parsed params) as (qs & Hpath & Hparse).
    exists qs. split; [|exact Hparse]. unfold api.listTasks. now rewrite Hpath.
  - intros s. unfold api.listTasks. now rewrite filters_path.
  - intros s. destruct (filters_query_parsed s) as (qs & Hpath & Hparse).
    exists qs. split; [unfold api.listTasks; now rewrite Hpath|].
    split; [exact Hparse|]. rewrite Hparse.
    repeat (apply List.Forall_cons; [discriminate|]).
    rewrite !Forall_app. repeat split; apply read_field_values.
  - intros k v. unfold api.query_part. destruct v as [|c r]; [split; reflexivity|].
    cbn [is_empty]. split; discriminate.
  - intros v. split; [apply urlencode_safe_bytes|].
    split; [apply urldecode_urlencode | apply urlencode_empty].
Qed.

(** ** Errors of the transport *)

Lemma req_resume (path : string) (init : option api.RequestInit) (o : FetchOutcome) :
  resume (api.req path init) o = lift (api.req_settled o).
Proof. reflexivity. Qed.

(** C3: every operation of the transport goes through [req], and for a
    response that is not ok [req] fails with an error whose message is the
    [detail] of the body when the body is JSON and its [detail] is a
    string that is not empty, and [HTTP <status>] when the body is not
    JSON, has no [detail], or has the empty string as [detail]. For a
    [detail] that is no string, which the contract of the error body does
    not provide for: a falsy one gives [HTTP <status>] too, and a truthy
    one is converted by [new Error], which gives its string conversion as
    message, or throws the TypeError of that conversion in place of the
    error. *)
Theorem req_error_message (res : Response) (Hok : res_ok res = false) :
  ((forall params o, resume (api.listTasks params) o = lift (api.req_settled o)) /\
   (forall payload o, resume (api.createTask payload) o = lift (api.req_settled o)) /\
   (forall id o, resume (api.deleteTask id) o = lift (api.req_settled o)) /\
   (forall id st o, resume (api.updateStatus id st) o = lift (api.req_settled o))) /\
  (forall body d,
      res_json res = Ok body -> opt_prop body "detail" = Some (JStr d) ->
      is_empty d = false ->
      api.req_settled (Resolved res) = Fail (Error d)) /\
  (forall body,
      res_json res = Ok body ->
      opt_prop body "detail" = Some (JStr "") \/ opt_prop body "detail" = None ->
      api.req_settled (Resolved res) = Fail (Error (api.http_message res))) /\
  (forall e,
      res_json res = Fail e ->
      api.req_settled (Resolved res) = Fail (Error (api.http_message res))) /\
  api.http_message res = "HTTP " +:+ pretty (res_status res) /\
  (forall body d,
      res_json res = Ok body -> opt_prop body "detail" = Some d ->
      truthy d = false ->
      api.req_settled (Resolved res) = Fail (Error (api.http_message res))) /\
  (forall body d,
      res_json res = Ok body -> opt_prop body "detail" = Some d ->
      truthy d = true ->
      api.req_settled (Resolved res) =
      match ToString d with
      | Some m => Fail (Error m)
      | None => Fail (TypeError_of_ToString d)
      end).
Proof.
  split; [repeat split; intros; apply req_resume|].
  unfold api.req_settled, api.http_message. rewrite Hok. cbn [negb].
  split; [|split; [|split; [|split; [|split]]]].
  - intros body d -> -> Hd. destruct d; [discriminate | reflexivity].
  - intros body -> [-> | ->]; reflexivity.
  - intros e ->. reflexivity.
  - reflexivity.
  - intros body d -> -> Hd. now rewrite Hd.
  - intros body d -> -> Hd. rewrite Hd. unfold new_Error.
    now destruct (ToString d).
Qed.

(** ** The controller *)


Lemma not_blank_trim (s : string) : ~ blank s <-> is_empty (trim s) = false.
Proof.
  rewrite <- blank_is_empty_trim. destruct (is_empty (trim s)); split; congruence.
Qed.

Lemma not_blank_truthy (s : string) : ~ blank s <-> truthy_string (trim s) = true.
Proof. rewrite not_blank_trim. unfold truthy_string. destruct (is_empty _); simpl; split; congruence. Qed.

Lemma effect_same (before : App.State) (c : App.Config) :
  App.deps before = App.deps (App.state c) -> App.effect before c = c.
Proof. intros E. unfold App.effect. now rewrite decide_True. Qed.

(** C8: when the prompt of a delete is declined, nothing happens: no
    request is issued or left in flight, and no field of the state
    changes; the configuration is the one before. *)
Theorem onDelete_declined (c : App.Config) (id : string) :
  App.invoke (App.onDelete (fun _ => false) id) c = c /\
  App.step c (App.ClickDelete id false) = c.
Proof.
  split; [reflexivity|].
  unfold App.step. cbn [App.handle]. unfold App.click.
  assert (App.invoke (App.onDelete (fun _ => false) id) c = c) as -> by reflexivity.
  destruct (App.loading (App.state c)); now apply effect_same.
Qed.

(** C4: with a blank name, or a blank URL, the create action issues no
    request (the log and the requests in flight are as before) and the
    error is the message of the first blank field: the name's when the
    name is blank, the URL's when only the URL is. *)
Theorem onCreate_blank_name_or_url (c : App.Config)
    (Hblank : blank (App.name (App.state c)) \/ blank (App.url (App.state c))) :
  let c' := App.invoke App.onCreate c in
  App.log c' = App.log c /\
  App.pending c' = App.pending c /\
  (blank (App.name (App.state c)) ->
   App.err (App.state c') = Some "Введите название задачи") /\
  (~ blank (App.name (App.state c)) ->
   App.err (App.state c') = Some "Введите URL").
Proof.
  destruct c as [[i l e fq ft fs n r t ct] pd nx lg]. cbn [App.state App.name App.url] in *.
  unfold App.invoke, App.onCreate. cbn [App.state App.name App.url].
  destruct (is_empty (trim n)) eqn:En.
  - cbn. split; [reflexivity|]. split; [reflexivity|].
    split; [reflexivity|]. intros Hn; apply not_blank_trim in Hn; congruence.
  - destruct Hblank as [Hn|Hu]; [apply blank_is_empty_trim in Hn; congruence|].
    apply blank_is_empty_trim in Hu. rewrite Hu. cbn.
    split; [reflexivity|]. split; [reflexivity|].
    split; [|reflexivity].
    intros Hn; apply blank_is_empty_trim in Hn; congruence.
Qed.

(** C5: a criteria text that is not blank and that [JSON.parse] rejects
    makes the create action issue no request, and report the JSON message
    once the name and the URL have passed their checks; a blank criteria
    text makes it send [createTask] with the empty object as criteria. *)
Theorem onCreate_criteria (c : App.Config) :
  let s := App.state c in
  let c' := App.invoke App.onCreate c in
  (~ blank (App.criteriaText s) -> JSON_parse (App.criteriaText s) = None ->
   App.log c' = App.log c /\
   App.pending c' = App.pending c /\
   (~ blank (App.name s) -> ~ blank (App.url s) ->
    App.err (App.state c') = Some "Критерии должны быть валидным JSON")) /\
  (blank (App.criteriaText s) -> ~ blank (App.name s) -> ~ blank (App.url s) ->
   exists f,
     request_of (api.createTask (App.payload_of s (JObj []))) = Some f /\
     App.log c' = (App.log c ++ [f])%list /\
     (fetch_body f ≫= fun b => prop b "criteria") = Some (JObj [])).
Proof.
  destruct c as [[i l e fq ft fs n r t ct] pd nx lg].
  cbn [App.state App.name App.url App.criteriaText] in *.
  unfold App.invoke, App.onCreate, App.criteria_of.
  cbn [App.state App.name App.url App.criteriaText].
  split.
  - intros Hc%not_blank_truthy Hp. rewrite Hc, Hp.
    destruct (is_empty (trim n)) eqn:En;
      [cbn; repeat split; intros Hn%not_blank_trim; congruence|].
    destruct (is_empty (trim r)) eqn:Er;
      [cbn; repeat split; intros _ Hr%not_blank_trim; congruence|].
    cbn. repeat split.
  - intros Hc%blank_is_empty_trim Hname%not_blank_trim Hurl%not_blank_trim.
    rewrite Hname, Hurl. unfold truthy_string. rewrite Hc. cbn [negb].
    eexists. split; [reflexivity|]. split; reflexivity.
Qed.

(** *** The setters an asynchronous function calls *)

Lemma calls_only_mono {A} (P Q : Setter -> Prop) (p : proc A) :
  (forall u, P u -> Q u) -> calls_only P p -> calls_only Q p.
Proof. intros HPQ; induction 1; constructor; auto. Qed.

Lemma calls_only_bind {A B} (P : Setter -> Prop) (p : proc A) (g : A -> proc B) :
  calls_only P p -> (forall a, calls_only P (g a)) -> calls_only P (p ≫= g).
Proof.
  intros Hp Hg. change (calls_only P (bind p g)).
  induction Hp; cbn [bind]; try constructor; auto.
Qed.

Lemma calls_only_try_catch {A} (P : Setter -> Prop) (p : proc A) (h : exn -> proc A) :
  calls_only P p -> (forall e, calls_only P (h e)) -> calls_only P (try_catch p h).
Proof. intros Hp Hh. induction Hp; cbn [try_catch]; try constructor; auto. Qed.

Lemma calls_only_finally {A} (P : Setter -> Prop) (p : proc A) (q : proc unit) :
  calls_only P p -> calls_only P q -> calls_only P (finally p q).
Proof.
  intros Hp Hq. induction Hp; cbn [finally]; try (constructor; auto; fail).
  - apply (calls_only_bind P q); [assumption | intros; constructor].
  - apply (calls_only_bind P q); [assumption | intros; constructor].
Qed.

Lemma calls_only_call (P : Setter -> Prop) (u : Setter) :
  P u -> calls_only P (call u).
Proof. intros Hu. repeat constructor. exact Hu. Qed.

Lemma calls_only_lift {A} (P : Setter -> Prop) (r : result A) :
  calls_only P (lift r).
Proof. destruct r; constructor. Qed.

Lemma calls_only_req (P : Setter -> Prop) (path : string) (init : option api.RequestInit) :
  calls_only P (api.req path init).
Proof. constructor. intros o. apply calls_only_lift. Qed.

Lemma calls_only_api (P : Setter -> Prop) :
  (forall params, calls_only P (api.listTasks params)) /\
  (forall payload, calls_only P (api.createTask payload)) /\
  (forall id, calls_only P (api.deleteTask id)) /\
  (forall id st, calls_only P (api.updateStatus id st)).
Proof. repeat split; intros; apply calls_only_req. Qed.

Ltac handler_calls :=
  repeat (first [ assumption
                | exact I
                | apply co_return | apply co_throw
                | apply co_call | apply co_await
                | apply calls_only_api
                | apply calls_only_bind | apply calls_only_finally
                | apply calls_only_try_catch | intros ]);
  auto with handlers.

Create HintDb handlers.
#[local] Hint Resolve calls_only_bind calls_only_try_catch calls_only_finally
  calls_only_call calls_only_lift calls_only_req : handlers.
#[local] Hint Extern 1 (App.handler_setter _) => exact I : handlers.

Lemma load_calls (s : App.State) : calls_only App.handler_setter (App.load s).
Proof.
  unfold App.load, api.listTasks.
  handler_calls.
Qed.

Lemma onCreate_calls (s : App.State) : calls_only App.handler_setter (App.onCreate s).
Proof.
  pose proof (load_calls s).
  unfold App.onCreate, api.createTask.
  apply calls_only_bind; [auto with handlers|]. intros _.
  destruct (is_empty (trim (App.name s))); [auto with handlers|].
  destruct (is_empty (trim (App.url s))); [auto with handlers|].
  destruct (App.criteria_of s); [|auto with handlers].
  handler_calls.
Qed.

Lemma onDelete_calls (confirm : string -> bool) (id : string) (s : App.State) :
  calls_only App.handler_setter (App.onDelete confirm id s).
Proof.
  pose proof (load_calls s).
  unfold App.onDelete, api.deleteTask.
  destruct (negb _); [constructor|].
  handler_calls.
Qed.

Lemma onStatus_calls (id : string) (st : TaskStatus) (s : App.State) :
  calls_only App.handler_setter (App.onStatus id st s).
Proof.
  pose proof (load_calls s).
  unfold App.onStatus, api.updateStatus.
  handler_calls.
Qed.

(** *** Running keeps what the setters keep *)

Lemma run_keeps {X} (field : App.State -> X) (p : proc unit) (c : App.Config) :
  calls_only (App.keeps field) p ->
  field (App.state (App.run p c)) = field (App.state c).
Proof.
  intros Hp; revert c. induction Hp as [a|e|u k Hu Hk IH|f k Hk IH]; intros c;
    cbn [App.run]; try reflexivity.
  rewrite IH. cbn [App.state]. apply Hu.
Qed.

Lemma run_pending_calls_only (P : Setter -> Prop) (p : proc unit) (c : App.Config) :
  calls_only P p -> App.pending_calls_only P c ->
  App.pending_calls_only P (App.run p c).
Proof.
  intros Hp; revert c. induction Hp as [a|e|u k Hu Hk IH|f k Hk IH]; intros c Hc;
    cbn [App.run]; try assumption.
  - apply IH. exact Hc.
  - intros rid f' k' Hl o. cbn [App.pending] in Hl.
    destruct (decide (App.next c = rid)) as [<-|Hne].
    + rewrite lookup_insert_eq in Hl. injection Hl as <- <-. apply Hk.
    + rewrite lookup_insert_ne in Hl by assumption. exact (Hc rid f' k' Hl o).
Qed.

Lemma handler_keeps_createSiteType (u : Setter) :
  App.handler_setter u -> App.keeps App.createSiteType u.
Proof. destruct u; cbn; try contradiction; intros _ [? ? ? ? ? ? ? ? ? ?]; reflexivity. Qed.

Lemma handler_keeps_deps (u : Setter) :
  App.handler_setter u -> App.keeps App.deps u.
Proof. destruct u; cbn; try contradiction; intros _ [? ? ? ? ? ? ? ? ? ?]; reflexivity. Qed.

Lemma settle_pending_calls_only (P : Setter -> Prop) (rid : nat) (o : FetchOutcome)
    (c : App.Config) :
  App.pending_calls_only P c -> App.pending_calls_only P (App.settle rid o c).
Proof.
  intros Hc. unfold App.settle.
  destruct (App.pending c !! rid) as [[f k]|] eqn:E; [|exact Hc].
  apply run_pending_calls_only; [exact (Hc rid f k E o)|].
  intros rid' f' k' Hl. cbn [App.pending] in Hl.
  apply lookup_delete_Some in Hl as [_ Hl]. exact (Hc rid' f' k' Hl).
Qed.

Lemma handle_pending_calls_only (e : App.Event) (c : App.Config) :
  App.pending_calls_only App.handler_setter c ->
  App.pending_calls_only App.handler_setter (App.handle e c).
Proof.
  intros Hc. destruct e; cbn [App.handle]; try exact Hc;
    unfold App.click, App.invoke;
    try (destruct (App.loading (App.state c)); [exact Hc|]).
  - apply run_pending_calls_only; [apply onCreate_calls | exact Hc].
  - apply run_pending_calls_only; [apply load_calls | exact Hc].
  - apply run_pending_calls_only; [apply onDelete_calls | exact Hc].
  - apply run_pending_calls_only; [apply onStatus_calls | exact Hc].
  - now apply settle_pending_calls_only.
Qed.

Lemma effect_pending_calls_only (before : App.State) (c : App.Config) :
  App.pending_calls_only App.handler_setter c ->
  App.pending_calls_only App.handler_setter (App.effect before c).
Proof.
  intros Hc. unfold App.effect. destruct (decide _); [exact Hc|].
  apply run_pending_calls_only; [apply load_calls | exact Hc].
Qed.

(** What resumes a request in flight calls the setters of the functions
    only, in every configuration the component reaches. *)
Lemma reachable_pending (c : App.Config) :
  App.reachable c -> App.pending_calls_only App.handler_setter c.
Proof.
  induction 1 as [|c e Hc IH].
  - apply run_pending_calls_only; [apply load_calls|].
    intros rid f k Hl. cbn in Hl. rewrite lookup_empty in Hl. discriminate.
  - apply effect_pending_calls_only, handle_pending_calls_only, IH.
Qed.

Lemma effect_keeps {X} (field : App.State -> X) (before : App.State) (c : App.Config) :
  (forall u, App.handler_setter u -> App.keeps field u) ->
  field (App.state (App.effect before c)) = field (App.state c).
Proof.
  intros Hk. unfold App.effect. destruct (decide _); [reflexivity|].
  apply run_keeps. eapply calls_only_mono; [exact Hk | apply load_calls].
Qed.

Lemma settle_keeps {X} (field : App.State -> X) (rid : nat) (o : FetchOutcome)
    (c : App.Config) :
  (forall u, App.handler_setter u -> App.keeps field u) ->
  App.pending_calls_only App.handler_setter c ->
  field (App.state (App.settle rid o c)) = field (App.state c).
Proof.
  intros Hk Hc. unfold App.settle.
  destruct (App.pending c !! rid) as [[f k]|] eqn:E; [|reflexivity].
  rewrite run_keeps; [reflexivity|].
  eapply calls_only_mono; [exact Hk | exact (Hc rid f k E o)].
Qed.

(** When a request settles, no dependency of the effect changes: the step
    is what resumes and nothing more. *)
Lemma step_settle (rid : nat) (o : FetchOutcome) (c : App.Config) :
  App.pending_calls_only App.handler_setter c ->
  App.step c (App.Settle rid o) = App.settle rid o c.
Proof.
  intros Hc. unfold App.step. cbn [App.handle]. apply effect_same.
  symmetry. apply settle_keeps; [apply handler_keeps_deps | exact Hc].
Qed.

Lemma awaiting_calls_only {A} (P : Setter -> Prop) (p : proc A) f k :
  calls_only P p -> awaiting p = Some (f, k) -> forall o, calls_only P (k o).
Proof.
  induction 1 as [a|e|u k' Hu Hk IH|f' k' Hk IH]; cbn [awaiting]; try discriminate.
  - exact IH.
  - intros [= <- <-]. exact Hk.
Qed.

(** A step that settles a request the functions of the component wait
    for: what resumes runs, and the effect has nothing to do. *)
Lemma step_settle_at (c : App.Config) (rid : nat) (o : FetchOutcome) f k :
  App.pending c !! rid = Some (f, k) ->
  (forall o, calls_only App.handler_setter (k o)) ->
  App.step c (App.Settle rid o) =
  App.run (k o) {| App.state := App.state c;
                   App.pending := delete rid (App.pending c);
                   App.next := App.next c; App.log := App.log c |}.
Proof.
  intros Hl Hk. unfold App.step. cbn [App.handle]. unfold App.settle. rewrite Hl.
  apply effect_same. symmetry.
  rewrite run_keeps; [reflexivity|].
  eapply calls_only_mono; [apply handler_keeps_deps | apply Hk].
Qed.

(** The create action reaches [createTask] when its local checks pass. *)
Lemma onCreate_awaiting (s : App.State) f k :
  awaiting (App.onCreate s) = Some (f, k) ->
  exists criteria,
    ~ blank (App.name s) /\ ~ blank (App.url s) /\
    App.criteria_of s = Some criteria /\
    request_of (api.createTask (App.payload_of s criteria)) = Some f /\
    k = resume (finally
           (try_catch
              (api.createTask (App.payload_of s criteria);;
               call (setName "");;
               call (setUrl "");;
               call (setCriteriaText App.default_criteriaText);;
               App.load s)
              (fun e => call (setErr (Some (nullish (message e) "Ошибка создания")))))
           (call (setLoading false))).
Proof.
  unfold App.onCreate.
  destruct (is_empty (trim (App.name s))) eqn:En; [discriminate|].
  destruct (is_empty (trim (App.url s))) eqn:Eu; [discriminate|].
  destruct (App.criteria_of s) as [criteria|] eqn:Ec; [|discriminate].
  intros [= <- <-]. exists criteria.
  rewrite !not_blank_trim. repeat split; assumption.
Qed.

Ltac destruct_config c :=
  let i := fresh "i" in let l := fresh "l" in let e := fresh "e" in
  let fq := fresh "fq" in let ft := fresh "ft" in let fs := fresh "fs" in
  let n := fresh "n" in let r := fresh "r" in let t := fresh "t" in
  let ct := fresh "ct" in let pd := fresh "pd" in let nx := fresh "nx" in
  let lg := fresh "lg" in
  destruct c as [[i l e fq ft fs n r t ct] pd nx lg].

(** *** Reloads *)

(** When the request of a reload settles, the state is [reloaded] and the
    request leaves the requests in flight; nothing else changes, whatever
    else is in flight. *)
Lemma reload_settles (c : App.Config) (rid : nat) (o : FetchOutcome) r :
  App.pending c !! rid = Some r -> App.is_reload r ->
  App.step c (App.Settle rid o) =
  {| App.state := App.reloaded o (App.state c);
     App.pending := delete rid (App.pending c);
     App.next := App.next c;
     App.log := App.log c |}.
Proof.
  intros Hl [[params Hf] (s & p & Hp & Hin)]. destruct r as [f k].
  assert (forall o, calls_only App.handler_setter (k o)) as Hk.
  { assert (calls_only App.handler_setter p) as Hcalls
      by (destruct Hp; [apply load_calls | apply onCreate_calls
                       | apply onDelete_calls | apply onStatus_calls]).
    destruct Hin as [Ha|(f1 & k1 & o1 & Ha1 & Ha)].
    - exact (awaiting_calls_only _ _ _ _ Hcalls Ha).
    - exact (awaiting_calls_only _ _ _ _
               (awaiting_calls_only _ _ _ _ Hcalls Ha1 o1) Ha). }
  rewrite (step_settle_at _ _ _ _ _ Hl Hk). clear Hl Hk.
  cbn in Hf. injection Hf as Hf.
  unfold App.reloaded, App.load_result. destruct_config c.
  destruct Hp; destruct Hin as [Ha|(f1 & k1 & o1 & Ha1 & Ha)]; revert Ha.
  - cbn -[api.listTasks_path App.filters]. intros [= _ <-].
    cbn -[api.req_settled read_prop].
    destruct (api.req_settled o) as [d|e']; cbn -[read_prop];
      [destruct (read_prop d "items")|]; reflexivity.
  - revert Ha1. cbn -[api.listTasks_path App.filters api.req_settled read_prop].
    intros [= _ <-]. cbn -[api.req_settled read_prop].
    destruct (api.req_settled o1) as [d|e']; cbn -[read_prop];
      [destruct (read_prop d "items")|]; discriminate.
  - unfold App.onCreate.
    destruct (is_empty (trim (App.name s))); [discriminate|].
    destruct (is_empty (trim (App.url s))); [discriminate|].
    destruct (App.criteria_of s); [|discriminate].
    cbn -[App.payload_of]. intros [= <- _]. discriminate.
  - revert Ha1. unfold App.onCreate.
    destruct (is_empty (trim (App.name s))); [discriminate|].
    destruct (is_empty (trim (App.url s))); [discriminate|].
    destruct (App.criteria_of s); [|discriminate].
    cbn -[App.payload_of api.listTasks_path App.filters api.req_settled read_prop].
    intros [= _ <-].
    cbn -[App.payload_of api.listTasks_path App.filters api.req_settled read_prop].
    destruct (api.req_settled o1) as [d1|e1];
      cbn -[api.listTasks_path App.filters api.req_settled read_prop];
      [|discriminate].
    intros [= _ <-]. cbn -[api.req_settled read_prop].
    destruct (api.req_settled o) as [d|e']; cbn -[read_prop];
      [destruct (read_prop d "items")|]; reflexivity.
  - unfold App.onDelete. destruct (negb _); [discriminate|].
    cbn. intros [= <- _]. discriminate.
  - revert Ha1. unfold App.onDelete. destruct (negb _); [discriminate|].
    cbn -[api.listTasks_path App.filters api.req_settled read_prop].
    intros [= _ <-].
    cbn -[api.listTasks_path App.filters api.req_settled read_prop].
    destruct (api.req_settled o1) as [d1|e1];
      cbn -[api.listTasks_path App.filters api.req_settled read_prop];
      [|discriminate].
    intros [= _ <-]. cbn -[api.req_settled read_prop].
    destruct (api.req_settled o) as [d|e']; cbn -[read_prop];
      [destruct (read_prop d "items")|]; reflexivity.
  - cbn. intros [= <- _]. discriminate.
  - revert Ha1.
    cbn -[api.listTasks_path App.filters api.req_settled read_prop].
    intros [= _ <-].
    cbn -[api.listTasks_path App.filters api.req_settled read_prop].
    destruct (api.req_settled o1) as [d1|e1];
      cbn -[api.listTasks_path App.filters api.req_settled read_prop];
      [|discriminate].
    intros [= _ <-]. cbn -[api.req_settled read_prop].
    destruct (api.req_settled o) as [d|e']; cbn -[read_prop];
      [destruct (read_prop d "items")|]; reflexivity.
Qed.

(** A reload sets the error when it fails; when it succeeds it leaves the
    error as it finds it, cleared at its start if nothing failed since. *)
Lemma reloaded_err (o : FetchOutcome) (s : App.State) :
  App.err (App.reloaded o s) =
  match App.load_result o with
  | Ok _ => App.err s
  | Fail e => Some (nullish (message e) "Ошибка загрузки")
  end.
Proof. unfold App.reloaded. destruct (App.load_result o); now destruct s. Qed.

Lemma reloaded_items (o : FetchOutcome) (s : App.State) (v : jsval) :
  App.load_result o = Ok v -> App.items (App.reloaded o s) = v.
Proof. intros E. unfold App.reloaded. rewrite E. now destruct s. Qed.

Lemma reloaded_items_Fail (o : FetchOutcome) (s : App.State) (e : exn) :
  App.load_result o = Fail e -> App.items (App.reloaded o s) = App.items s.
Proof. intros E. unfold App.reloaded. rewrite E. now destruct s. Qed.


(** C6: when the [createTask] request of a create action succeeds, the
    name, the URL and the criteria text are set to their defaults and one
    list request, for the filters of the render the action was called in,
    is issued and left in flight; when that request settles the state is
    reloaded from its outcome and nothing more is issued. *)
Theorem onCreate_success (s : App.State) f k
    (Hawait : awaiting (App.onCreate s) = Some (f, k))
    (c : App.Config) (rid : nat) (o : FetchOutcome) (data : jsval)
    (Hpending : App.pending c !! rid = Some (f, k))
    (Hok : api.req_settled o = Ok data) :
  let c' := App.step c (App.Settle rid o) in
  (exists criteria,
      App.criteria_of s = Some criteria /\
      request_of (api.createTask (App.payload_of s criteria)) = Some f) /\
  App.name (App.state c') = "" /\
  App.url (App.state c') = "" /\
  App.criteriaText (App.state c') = App.default_criteriaText /\
  exists f' k',
    request_of (api.listTasks (Some (App.filters s))) = Some f' /\
    App.log c' = (App.log c ++ [f'])%list /\
    App.pending c' = <[App.next c := (f', k')]> (delete rid (App.pending c)) /\
    forall (c2 : App.Config) (rid2 : nat) (o2 : FetchOutcome),
      App.pending c2 !! rid2 = Some (f', k') ->
      App.step c2 (App.Settle rid2 o2) =
      {| App.state := App.reloaded o2 (App.state c2);
         App.pending := delete rid2 (App.pending c2);
         App.next := App.next c2;
         App.log := App.log c2 |}.
Proof.
  pose proof (awaiting_calls_only _ _ _ _ (onCreate_calls s) Hawait) as Hk.
  destruct (onCreate_awaiting s f k Hawait) as (criteria & _ & _ & Hc & Hf & Ek).
  cbn zeta. rewrite (step_settle_at _ _ _ _ _ Hpending Hk).
  split; [eauto|].
  assert (exists f' k',
             request_of (api.listTasks (Some (App.filters s))) = Some f' /\
             awaiting (k o) = Some (f', k')) as (f' & k' & Hf' & Hk').
  { subst k. cbn -[api.listTasks_path App.filters App.payload_of]. rewrite Hok.
    cbn -[api.listTasks_path App.filters]. eauto. }
  assert (App.is_reload (f', k')) as Hreload.
  { split; [eauto|]. exists s, (App.onCreate s).
    split; [constructor|]. right. eauto. }
  revert Hk'. subst k.
  destruct_config c. cbn [App.state App.pending App.next App.log] in *.
  cbn -[trim App.payload_of api.listTasks_path App.filters]. rewrite Hok.
  cbn -[trim App.payload_of api.listTasks_path App.filters].
  intros [= <- <-].
  do 3 (split; [reflexivity|]).
  eexists _, _. split; [reflexivity|]. split; [reflexivity|]. split; [reflexivity|].
  intros c2 rid2 o2 Hl. exact (reload_settles c2 rid2 o2 _ Hl Hreload).
Qed.

(** C7: when the [createTask] request of a create action fails, the name,
    the URL, the site type and the criteria text stay as they are, the
    error becomes the message of the failure, and no list request is
    issued. *)
Theorem onCreate_failure (s : App.State) f k
    (Hawait : awaiting (App.onCreate s) = Some (f, k))
    (c : App.Config) (rid : nat) (o : FetchOutcome) (e : exn)
    (Hpending : App.pending c !! rid = Some (f, k))
    (Hfail : api.req_settled o = Fail e) :
  let c' := App.step c (App.Settle rid o) in
  App.name (App.state c') = App.name (App.state c) /\
  App.url (App.state c') = App.url (App.state c) /\
  App.createSiteType (App.state c') = App.createSiteType (App.state c) /\
  App.criteriaText (App.state c') = App.criteriaText (App.state c) /\
  App.err (App.state c') = Some (nullish (message e) "Ошибка создания") /\
  App.log c' = App.log c.
Proof.
  pose proof (awaiting_calls_only _ _ _ _ (onCreate_calls s) Hawait) as Hk.
  destruct (onCreate_awaiting s f k Hawait) as (criteria & _ & _ & Hc & Hf & ->).
  cbn zeta. rewrite (step_settle_at _ _ _ _ _ Hpending Hk).
  destruct_config c. cbn [App.state App.pending App.next App.log] in *.
  cbn -[trim App.payload_of api.listTasks_path App.filters]. rewrite Hfail.
  cbn. repeat split; reflexivity.
Qed.

(** *** One action at a time *)

Ltac settle_next :=
  erewrite step_settle_at;
  [ | apply lookup_insert_eq | intros; cbn beta; handler_calls ].

(** Each action, run on its own from any configuration (no other event
    between its start and the settling of its requests), first clears the
    error (the create action then sets the message of a local check that
    fails), and when its requests have settled the error is none after a
    success and the message of the failure otherwise; in no case does it
    depend on the error shown before. A delete is an action once its
    prompt is confirmed. *)
Lemma error_of_action_alone (c : App.Config) :
  let rid := App.next c in
  (let c0 := App.invoke App.load c in
   App.err (App.state c0) = None /\
   forall o,
     App.err (App.state (App.step c0 (App.Settle rid o))) =
     App.failure_message "Ошибка загрузки" (App.load_result o)) /\
  (let c0 := App.invoke App.onCreate c in
   App.err (App.state c0) = App.validation_error (App.state c) /\
   (App.validation_error (App.state c) = None ->
    forall o,
      let c1 := App.step c0 (App.Settle rid o) in
      App.err (App.state c1) =
      App.failure_message "Ошибка создания" (api.req_settled o) /\
      forall data o2,
        api.req_settled o = Ok data ->
        App.err (App.state (App.step c1 (App.Settle (S rid) o2))) =
        App.failure_message "Ошибка загрузки" (App.load_result o2))) /\
  (forall id,
     let c0 := App.invoke (App.onDelete (fun _ => true) id) c in
     App.err (App.state c0) = None /\
     forall o,
       let c1 := App.step c0 (App.Settle rid o) in
       App.err (App.state c1) =
       App.failure_message "Ошибка удаления" (api.req_settled o) /\
       forall data o2,
         api.req_settled o = Ok data ->
         App.err (App.state (App.step c1 (App.Settle (S rid) o2))) =
         App.failure_message "Ошибка загрузки" (App.load_result o2)) /\
  (forall id newStatus,
     let c0 := App.invoke (App.onStatus id newStatus) c in
     App.err (App.state c0) = None /\
     forall o,
       let c1 := App.step c0 (App.Settle rid o) in
       App.err (App.state c1) =
       App.failure_message "Ошибка обновления статуса" (api.req_settled o) /\
       forall data o2,
         api.req_settled o = Ok data ->
         App.err (App.state (App.step c1 (App.Settle (S rid) o2))) =
         App.failure_message "Ошибка загрузки" (App.load_result o2)).
Proof.
  destruct_config c. cbn zeta. cbn [App.next App.state].
  split; [|split; [|split]].
  - unfold App.invoke. cbn -[trim App.filters api.listTasks_path].
    split; [reflexivity|]. intros o. settle_next.
    unfold App.load_result.
    cbn -[trim App.filters api.listTasks_path api.req_settled read_prop].
    destruct (api.req_settled o) as [d|e']; cbn -[read_prop];
      [destruct (read_prop d "items")|]; reflexivity.
  - unfold App.invoke, App.onCreate, App.validation_error.
    cbn [App.state App.name App.url].
    destruct (is_empty (trim n)); [split; [reflexivity | discriminate]|].
    destruct (is_empty (trim r)); [split; [reflexivity | discriminate]|].
    destruct (App.criteria_of _) as [criteria|];
      [|split; [reflexivity | discriminate]].
    cbn -[trim App.filters api.listTasks_path App.payload_of].
    split; [reflexivity|]. intros _ o. settle_next.
    cbn -[trim App.filters api.listTasks_path App.payload_of api.req_settled].
    destruct (api.req_settled o) as [d|e'];
      cbn -[trim App.filters api.listTasks_path App.payload_of];
      (split; [reflexivity|]); intros data o2 Hd; [|discriminate].
    settle_next. unfold App.load_result.
    cbn -[trim App.filters api.listTasks_path api.req_settled read_prop].
    destruct (api.req_settled o2) as [d2|e2]; cbn -[read_prop];
      [destruct (read_prop d2 "items")|]; reflexivity.
  - intros id.
    unfold App.invoke. cbn -[trim App.filters api.listTasks_path].
    split; [reflexivity|]. intros o. settle_next.
    cbn -[trim App.filters api.listTasks_path api.req_settled].
    destruct (api.req_settled o) as [d|e'];
      cbn -[trim App.filters api.listTasks_path];
      (split; [reflexivity|]); intros data o2 Hd; [|discriminate].
    settle_next. unfold App.load_result.
    cbn -[trim App.filters api.listTasks_path api.req_settled read_prop].
    destruct (api.req_settled o2) as [d2|e2]; cbn -[read_prop];
      [destruct (read_prop d2 "items")|]; reflexivity.
  - intros id newStatus.
    unfold App.invoke. cbn -[trim App.filters api.listTasks_path].
    split; [reflexivity|]. intros o. settle_next.
    cbn -[trim App.filters api.listTasks_path api.req_settled].
    destruct (api.req_settled o) as [d|e'];
      cbn -[trim App.filters api.listTasks_path];
      (split; [reflexivity|]); intros data o2 Hd; [|discriminate].
    settle_next. unfold App.load_result.
    cbn -[trim App.filters api.listTasks_path api.req_settled read_prop].
    destruct (api.req_settled o2) as [d2|e2]; cbn -[read_prop];
      [destruct (read_prop d2 "items")|]; reflexivity.
Qed.

(** *** The site type of the create form *)

Lemma input_keeps_createSiteType (u : Setter) (c : App.Config) :
  (forall t, u <> setCreateSiteType t) ->
  App.createSiteType (App.state (App.input u c)) = App.createSiteType (App.state c).
Proof.
  intros Hu. destruct_config c. destruct u; try reflexivity.
  now destruct (Hu t0).
Qed.

Lemma step_keeps_createSiteType (c : App.Config) (e : App.Event) :
  App.pending_calls_only App.handler_setter c ->
  App.selects_site_type e = false ->
  App.createSiteType (App.state (App.step c e)) = App.createSiteType (App.state c).
Proof.
  intros Hc He. unfold App.step.
  rewrite effect_keeps by apply handler_keeps_createSiteType.
  destruct e; cbn [App.handle]; try discriminate;
    try (apply input_keeps_createSiteType; discriminate);
    unfold App.click, App.invoke;
    try (destruct (App.loading (App.state c)); [reflexivity|]).
  - apply run_keeps. eapply calls_only_mono;
      [apply handler_keeps_createSiteType | apply onCreate_calls].
  - apply run_keeps. eapply calls_only_mono;
      [apply handler_keeps_createSiteType | apply load_calls].
  - apply run_keeps. eapply calls_only_mono;
      [apply handler_keeps_createSiteType | apply onDelete_calls].
  - apply run_keeps. eapply calls_only_mono;
      [apply handler_keeps_createSiteType | apply onStatus_calls].
  - apply settle_keeps; [apply handler_keeps_createSiteType | exact Hc].
Qed.

Lemma reachable_steps (c : App.Config) (es : list App.Event) :
  App.reachable c -> App.reachable (App.steps c es).
Proof.
  revert c; induction es as [|e es IH]; intros c Hc; [exact Hc|].
  apply IH. now constructor.
Qed.

(** C10: no setter that the create action calls, at any stage and whether
    it succeeds or fails, touches the site type of the create form; and
    from any configuration the component reaches, whatever happens
    (clicks, requests that settle, the other inputs) short of the user
    choosing in that selector leaves its value as it is. *)
Theorem createSiteType_kept (c : App.Config) (es : list App.Event)
    (Hc : App.reachable c)
    (Hes : Forall (fun e => App.selects_site_type e = false) es) :
  (forall s, calls_only (App.keeps App.createSiteType) (App.onCreate s)) /\
  App.createSiteType (App.state (App.steps c es)) = App.createSiteType (App.state c).
Proof.
  split.
  - intros s. eapply calls_only_mono;
      [apply handler_keeps_createSiteType | apply onCreate_calls].
  - revert c Hc; induction Hes as [|e es He Hes IH]; intros c Hc; [reflexivity|].
    cbn [App.steps fold_left]. fold (App.steps (App.step c e) es).
    rewrite IH by now constructor.
    apply step_keeps_createSiteType; [now apply reachable_pending | exact He].
Qed.

(** *** Reloads that overlap *)

(** The reloads [rs] settle one after the other: each is a [reloaded] of
    the state, whatever else is in flight. *)
Lemma settle_all_reloads (rs : list (nat * FetchOutcome)) (c : App.Config) :
  (forall r, In r (map fst rs) ->
             exists e, App.pending c !! r = Some e /\ App.is_reload e) ->
  NoDup (map fst rs) ->
  App.state (App.steps c (App.settle_all rs))
  = fold_left (fun s r => App.reloaded (snd r) s) rs (App.state c).
Proof.
  revert c. induction rs as [|[r1 o1] rs IH]; intros c Hreloads Hdistinct;
    [reflexivity|].
  change (App.steps c (App.settle_all ((r1, o1) :: rs)))
    with (App.steps (App.step c (App.Settle r1 o1)) (App.settle_all rs)).
  cbn [map fst snd fold_left] in *.
  destruct (Hreloads r1) as [e [Hl He]]; [now left|].
  apply NoDup_cons in Hdistinct as [Hr1 Hdistinct].
  rewrite IH; [now rewrite (reload_settles _ _ _ _ Hl He) | | exact Hdistinct].
  rewrite (reload_settles _ _ _ _ Hl He).
  intros r Hr. destruct (Hreloads r) as [e' [Hl' He']]; [now right|].
  exists e'. split; [|exact He']. cbn [App.pending].
  rewrite lookup_delete_ne; [exact Hl'|]. intros ->.
  apply Hr1, list_elem_of_In, Hr.
Qed.

Lemma failed_reloads_keep_items (rs : list (nat * FetchOutcome)) (s : App.State) :
  Forall (fun r => exists e, App.load_result (snd r) = Fail e) rs ->
  App.items (fold_left (fun s r => App.reloaded (snd r) s) rs s) = App.items s.
Proof.
  intros Hrs. revert s. induction Hrs as [|r rs [e He] _ IH]; intros s;
    [reflexivity|].
  cbn [fold_left]. rewrite IH. exact (reloaded_items_Fail _ _ _ He).
Qed.

(** C1 (amended): among reloads in flight together, the last one to settle
    with success decides the list, whenever it was issued: after any
    number of them have settled, in any order and with any outcome, the
    list is the result of the last that succeeded, whatever failures
    settled after it; and when none of them succeeded the list is as it
    was. *)
Theorem last_settled_reload_wins (c : App.Config) (rs : list (nat * FetchOutcome))
    (Hreloads : forall r, In r (map fst rs) ->
                exists e, App.pending c !! r = Some e /\ App.is_reload e)
    (Hdistinct : NoDup (map fst rs)) :
  let c' := App.steps c (App.settle_all rs) in
  (forall earlier rid o v later,
      rs = (earlier ++ (rid, o) :: later)%list ->
      App.load_result o = Ok v ->
      Forall (fun r => exists e, App.load_result (snd r) = Fail e) later ->
      App.items (App.state c') = v) /\
  (Forall (fun r => exists e, App.load_result (snd r) = Fail e) rs ->
   App.items (App.state c') = App.items (App.state c)).
Proof.
  cbn zeta. rewrite (settle_all_reloads rs c Hreloads Hdistinct). split.
  - intros earlier rid o v later -> Hok Hlater.
    rewrite fold_left_app. cbn [fold_left snd].
    rewrite (failed_reloads_keep_items later _ Hlater).
    now apply reloaded_items.
  - apply failed_reloads_keep_items.
Qed.

(** *** Clicks *)

(** A click on a button that is enabled calls its function, and the effect
    has nothing to do. *)
Lemma step_click (c : App.Config) :
  App.loading (App.state c) = false ->
  App.step c App.ClickCreate = App.invoke App.onCreate c /\
  App.step c App.ClickRefresh = App.invoke App.load c /\
  (forall id answer,
      App.step c (App.ClickDelete id answer) =
      App.invoke (App.onDelete (fun _ => answer) id) c).
Proof.
  intros Hl. unfold App.step. cbn [App.handle]. unfold App.click. rewrite Hl.
  repeat split; intros; apply effect_same; symmetry; apply run_keeps;
    (eapply calls_only_mono; [apply handler_keeps_deps|]).
  - apply onCreate_calls.
  - apply load_calls.
  - apply onDelete_calls.
Qed.

(** *** Running, in one equation *)

Lemma run_eq (p : proc unit) (c : App.Config) :
  App.run p c =
  {| App.state := App.after_calls p (App.state c);
     App.pending := match awaiting p with
                    | Some r => <[App.next c := r]> (App.pending c)
                    | None => App.pending c
                    end;
     App.next := match awaiting p with
                 | Some _ => S (App.next c)
                 | None => App.next c
                 end;
     App.log := match awaiting p with
                | Some r => (App.log c ++ [fst r])%list
                | None => App.log c
                end |}.
Proof.
  revert c. induction p as [a|e|u k IH|f k _]; intros c; cbn [App.run awaiting App.after_calls].
  - now destruct c.
  - now destruct c.
  - rewrite IH. reflexivity.
  - reflexivity.
Qed.

(** When the request of an action settles: on success the form is reset as
    the action wants, [load] starts and its list request, for the filters
    of the render the action was called in, is in flight; on failure the
    error is set and loading ends. *)
Lemma action_settles (s0 : App.State) p fallback reset f k :
  App.action s0 p fallback reset -> awaiting p = Some (f, k) ->
  exists f' k',
    request_of (api.listTasks (Some (App.filters s0))) = Some f' /\
    App.is_reload (f', k') /\
    forall (c : App.Config) (rid : nat) (o : FetchOutcome),
      App.pending c !! rid = Some (f, k) ->
      App.step c (App.Settle rid o) =
      match api.req_settled o with
      | Ok _ =>
          {| App.state := App.apply (setErr None)
                            (App.apply (setLoading true) (reset (App.state c)));
             App.pending := <[App.next c := (f', k')]> (delete rid (App.pending c));
             App.next := S (App.next c);
             App.log := (App.log c ++ [f'])%list |}
      | Fail e =>
          {| App.state := App.apply (setLoading false)
                            (App.apply (setErr (Some (nullish (message e) fallback)))
                               (App.state c));
             App.pending := delete rid (App.pending c);
             App.next := App.next c;
             App.log := App.log c |}
      end.
Proof.
  intros Hp Ha.
  assert (calls_only App.handler_setter p) as Hcalls
    by (destruct Hp; [apply onCreate_calls | apply onDelete_calls | apply onStatus_calls]).
  pose proof (awaiting_calls_only _ _ _ _ Hcalls Ha) as Hk.
  assert (exists f' k',
             request_of (api.listTasks (Some (App.filters s0))) = Some f' /\
             (forall o d, api.req_settled o = Ok d -> awaiting (k o) = Some (f', k')))
    as (f' & k' & Hf' & Hk').
  { destruct Hp.
    - destruct (onCreate_awaiting _ _ _ Ha) as (criteria & _ & _ & _ & _ & ->).
      eexists _, _. split; [reflexivity|]. intros o d Ho.
      cbn -[api.listTasks_path App.filters App.payload_of api.req_settled].
      rewrite Ho. reflexivity.
    - revert Ha. unfold App.onDelete. destruct (negb _); [discriminate|].
      cbn -[api.listTasks_path App.filters api.req_settled]. intros [= <- <-].
      eexists _, _. split; [reflexivity|]. intros o d Ho.
      cbn -[api.listTasks_path App.filters api.req_settled].
      rewrite Ho. reflexivity.
    - revert Ha.
      cbn -[api.listTasks_path App.filters api.req_settled]. intros [= <- <-].
      eexists _, _. split; [reflexivity|]. intros o d Ho.
      cbn -[api.listTasks_path App.filters api.req_settled].
      rewrite Ho. reflexivity. }
  exists f', k'. split; [exact Hf'|]. split.
  { split; [eauto|]. exists s0, p. split.
    - destruct Hp; constructor.
    - right. exists f, k, no_content. split; [exact Ha|].
      apply (Hk' no_content None). reflexivity. }
  intros c rid o Hl. rewrite (step_settle_at _ _ _ _ _ Hl Hk).
  rewrite run_eq. cbn [App.state App.pending App.next App.log].
  destruct (api.req_settled o) as [d|e] eqn:Ho.
  - rewrite (Hk' o d Ho). cbn [fst]. f_equal.
    clear Hk Hk' Hl Hcalls. destruct_config c. cbn [App.state].
    destruct Hp.
    + destruct (onCreate_awaiting _ _ _ Ha) as (criteria & _ & _ & _ & _ & ->).
      cbn -[api.listTasks_path App.filters App.payload_of api.req_settled].
      rewrite Ho. reflexivity.
    + revert Ha. unfold App.onDelete. destruct (negb _); [discriminate|].
      cbn -[api.listTasks_path App.filters api.req_settled]. intros [= _ <-].
      cbn -[api.listTasks_path App.filters api.req_settled].
      rewrite Ho. reflexivity.
    + revert Ha.
      cbn -[api.listTasks_path App.filters api.req_settled]. intros [= _ <-].
      cbn -[api.listTasks_path App.filters api.req_settled].
      rewrite Ho. reflexivity.
  - clear Hk Hk' Hl Hcalls. destruct_config c. cbn [App.state].
    destruct Hp.
    + destruct (onCreate_awaiting _ _ _ Ha) as (criteria & _ & _ & _ & _ & ->).
      cbn -[api.listTasks_path App.filters App.payload_of api.req_settled].
      rewrite Ho. reflexivity.
    + revert Ha. unfold App.onDelete. destruct (negb _); [discriminate|].
      cbn -[api.listTasks_path App.filters api.req_settled]. intros [= _ <-].
      cbn -[api.listTasks_path App.filters api.req_settled].
      rewrite Ho. reflexivity.
    + revert Ha.
      cbn -[api.listTasks_path App.filters api.req_settled]. intros [= _ <-].
      cbn -[api.listTasks_path App.filters api.req_settled].
      rewrite Ho. reflexivity.
Qed.

(** *** The error shown *)

Lemma err_setErr (m : option string) (s : App.State) :
  App.err (App.apply (setErr m) s) = m.
Proof. now destruct s. Qed.

Lemma err_setLoading (b : bool) (s : App.State) :
  App.err (App.apply (setLoading b) s) = App.err s.
Proof. now destruct s. Qed.

(** C9 (amended): each action first clears the error (the create action
    then sets the message of a local check that fails). After that the
    error is written only when a request settles, whatever else is in
    flight: a reload that fails sets its message and a reload that
    succeeds leaves the error as it finds it; the request of a create, a
    delete or a status change that fails sets its message, and when it
    succeeds the reload it starts clears the error. So an action run on
    its own, with no other event between its start and the settling of
    its requests, ends with no error after a success and with the message
    of its failure otherwise, independently of the error shown before;
    a reload that succeeds while another action's failure has arrived
    since its start ends with that failure still shown. *)
Theorem error_is_of_latest_action (c : App.Config) :
  (let rid := App.next c in
  (let c0 := App.invoke App.load c in
   App.err (App.state c0) = None /\
   forall o,
     App.err (App.state (App.step c0 (App.Settle rid o))) =
     App.failure_message "Ошибка загрузки" (App.load_result o)) /\
  (let c0 := App.invoke App.onCreate c in
   App.err (App.state c0) = App.validation_error (App.state c) /\
   (App.validation_error (App.state c) = None ->
    forall o,
      let c1 := App.step c0 (App.Settle rid o) in
      App.err (App.state c1) =
      App.failure_message "Ошибка создания" (api.req_settled o) /\
      forall data o2,
        api.req_settled o = Ok data ->
        App.err (App.state (App.step c1 (App.Settle (S rid) o2))) =
        App.failure_message "Ошибка загрузки" (App.load_result o2))) /\
  (forall id,
     let c0 := App.invoke (App.onDelete (fun _ => true) id) c in
     App.err (App.state c0) = None /\
     forall o,
       let c1 := App.step c0 (App.Settle rid o) in
       App.err (App.state c1) =
       App.failure_message "Ошибка удаления" (api.req_settled o) /\
       forall data o2,
         api.req_settled o = Ok data ->
         App.err (App.state (App.step c1 (App.Settle (S rid) o2))) =
         App.failure_message "Ошибка загрузки" (App.load_result o2)) /\
  (forall id newStatus,
     let c0 := App.invoke (App.onStatus id newStatus) c in
     App.err (App.state c0) = None /\
     forall o,
       let c1 := App.step c0 (App.Settle rid o) in
       App.err (App.state c1) =
       App.failure_message "Ошибка обновления статуса" (api.req_settled o) /\
       forall data o2,
         api.req_settled o = Ok data ->
         App.err (App.state (App.step c1 (App.Settle (S rid) o2))) =
         App.failure_message "Ошибка загрузки" (App.load_result o2))) /\
  (forall rid o r,
      App.pending c !! rid = Some r -> App.is_reload r ->
      App.err (App.state (App.step c (App.Settle rid o))) =
      match App.load_result o with
      | Ok _ => App.err (App.state c)
      | Fail e => Some (nullish (message e) "Ошибка загрузки")
      end) /\
  (forall s p fallback reset rid o r,
      App.action s p fallback reset -> awaiting p = Some r ->
      App.pending c !! rid = Some r ->
      App.err (App.state (App.step c (App.Settle rid o))) =
      App.failure_message fallback (api.req_settled o)).
Proof.
  split; [exact (error_of_action_alone c)|]. split.
  - intros rid o r Hl Hr. rewrite (reload_settles _ _ _ _ Hl Hr).
    cbn [App.state]. apply reloaded_err.
  - intros s p fallback reset rid o [f k] Hp Ha Hl.
    destruct (action_settles _ _ _ _ _ _ Hp Ha) as (f' & k' & _ & _ & Hstep).
    rewrite (Hstep c rid o Hl). unfold App.failure_message.
    destruct (api.req_settled o); cbn [App.state];
      now rewrite ?err_setLoading, err_setErr.
Qed.

(** ** More of the transport *)

Lemma req_settled_Ok (o : FetchOutcome) (v : jsval) :
  api.req_settled o = Ok v <->
  exists res,
    o = Resolved res /\ res_ok res = true /\
    ((res_status res = 204%Z /\ v = None) \/
     (res_status res <> 204%Z /\ exists body, res_json res = Ok body /\ v = Some body)).
Proof.
  unfold api.req_settled. split.
  - destruct o as [e|res]; [discriminate|].
    destruct (res_ok res) eqn:Hok; cbn [negb]; [|discriminate].
    destruct (Z.eqb_spec (res_status res) 204) as [E|E].
    + intros [= <-]. exists res. auto.
    + destruct (res_json res) as [body|e] eqn:Hj; [|discriminate].
      intros [= <-]. exists res. split; [reflexivity|]. split; [exact Hok|].
      right. eauto.
  - intros (res & -> & Hok & [[E ->]|[E (body & Hj & ->)]]); rewrite Hok; cbn [negb].
    + rewrite E. reflexivity.
    + destruct (Z.eqb_spec (res_status res) 204) as [E'|_]; [contradiction|].
      now rewrite Hj.
Qed.

(** X1: [req] resolves exactly for a response that is ok and either has
    status 204, giving [undefined] whatever its body, or has a body that is
    JSON, giving that value. *)
Theorem req_resolves (o : FetchOutcome) (v : jsval) :
  api.req_settled o = Ok v <->
  exists res,
    o = Resolved res /\ res_ok res = true /\
    ((res_status res = 204%Z /\ v = None) \/
     (res_status res <> 204%Z /\ exists body, res_json res = Ok body /\ v = Some body)).
Proof. apply req_settled_Ok. Qed.

(** X2: what [req] throws is the rejection of [fetch]; the rejection of
    [res.json()] on a response that is ok; an error of its own, which
    always has a message; or, for a response that is not ok whose body has
    a truthy [detail] that has no string conversion, the TypeError that
    [new Error] throws in place of the error. An error without message
    comes from the environment only. *)
Theorem req_failure_source (o : FetchOutcome) (e : exn)
    (Hfail : api.req_settled o = Fail e) :
  o = Rejected e \/
  (exists res, o = Resolved res /\ res_ok res = true /\
               res_status res <> 204%Z /\ res_json res = Fail e) \/
  (exists res m, o = Resolved res /\ res_ok res = false /\ e = Error m) \/
  (exists res body d,
      o = Resolved res /\ res_ok res = false /\
      res_json res = Ok body /\ opt_prop body "detail" = Some d /\
      truthy d = true /\ ToString d = None /\ e = TypeError_of_ToString d).
Proof.
  revert Hfail. unfold api.req_settled.
  destruct o as [e'|res]; [intros [= ->]; now left|].
  destruct (res_ok res) eqn:Hok; cbn [negb].
  - destruct (Z.eqb_spec (res_status res) 204) as [E|E]; [discriminate|].
    destruct (res_json res) as [body|e'] eqn:Hj; [discriminate|].
    intros [= ->]. right. left. exists res. auto.
  - intros Hfail. right. right. revert Hfail.
    assert (forall m, @Fail jsval (new_Error (JStr m)) = Fail e ->
              (exists res0 m0, Resolved res = Resolved res0 /\
                               res_ok res0 = false /\ e = Error m0) \/
              (exists res0 body d,
                  Resolved res = Resolved res0 /\ res_ok res0 = false /\
                  res_json res0 = Ok body /\ opt_prop body "detail" = Some d /\
                  truthy d = true /\ ToString d = None /\
                  e = TypeError_of_ToString d)) as Hown
      by (intros m [= <-]; left; exists res, m; auto).
    destruct (res_json res) as [body|e'] eqn:Hj; [|apply Hown].
    destruct (opt_prop body "detail") as [d|] eqn:Hd; [|apply Hown].
    destruct (truthy d) eqn:Ht; [|apply Hown].
    unfold new_Error. destruct (ToString d) as [m|] eqn:Hs; intros [= <-].
    + left. eauto.
    + right. exists res, body, d. auto 10.
Qed.

Lemma join_cons_nonempty (sep a : string) (l : list string) :
  is_empty a = false -> is_empty (join sep (a :: l)) = false.
Proof.
  intros Ha. destruct l as [|b l]; cbn [join]; [exact Ha|].
  now rewrite is_empty_append, Ha.
Qed.

(** X3: the names in the query of [listTasks] are taken from limit,
    offset, status, site_type, q, in that order and each at most once; and
    the path is [/tasks] alone, without a question mark, exactly when no
    field is present. *)
Theorem listTasks_query_names (params : option api.ListParams) :
  sublist (map fst (api.listTasks_params params))
          ["limit"; "offset"; "status"; "site_type"; "q"] /\
  NoDup (map fst (api.listTasks_params params)) /\
  (api.listTasks_path params = "/tasks" <-> api.present_fields params = []).
Proof.
  assert (sublist (map fst (api.listTasks_params params))
            ["limit"; "offset"; "status"; "site_type"; "q"]) as Hsub.
  { rewrite listTasks_params_present. unfold api.present_fields.
    destruct params as [[l o st ty qq]|]; cbn [mbind option_bind api.limit
      api.offset api.status api.site_type api.q];
      [|repeat constructor].
    destruct l, o, st as [[|? ?]|], ty as [[|? ?]|], qq as [[|? ?]|];
      cbn [api.number_field api.string_field is_empty app map fst];
      repeat first [apply sublist_nil | apply sublist_skip | apply sublist_cons]. }
  split; [exact Hsub|]. split.
  - eapply sublist_NoDup; [|exact Hsub].
    apply NoDup_ListNoDup. repeat constructor; cbn; intuition discriminate.
  - unfold api.listTasks_path. rewrite listTasks_params_present.
    destruct (api.present_fields params) as [|[k v] l].
    + split; reflexivity.
    + unfold api.sp_toString, truthy_string. cbn [map fst snd].
      rewrite join_cons_nonempty
        by (rewrite !is_empty_append; cbn [is_empty]; now rewrite andb_false_r).
      cbn [negb]. split; [|discriminate].
      intros E. rewrite !append_String, append_Empty in E. discriminate E.
Qed.

(** X4: a serialized value is made of letters, digits and the bytes
    [* - . _ + %] only, so that no value can bring a separator of its own
    into the query; a parser reads it back as the value, with U+FFFD for
    each surrogate without partner; so two values serialize alike exactly
    when they are the same as USVStrings, and two values without such
    surrogates only when they are the same value. *)
Theorem urlencode_safe_faithful (v w : string) :
  all_bytes api.query_safe (api.urlencode v) = true /\
  api.urldecode (api.urlencode v) = USVString v /\
  (api.urlencode v = api.urlencode w <-> USVString v = USVString w) /\
  (scalar v -> scalar w -> api.urlencode v = api.urlencode w -> v = w).
Proof.
  split; [apply urlencode_safe_bytes|]. split; [apply urldecode_urlencode|].
  split; [apply urlencode_inj|].
  unfold scalar. intros Hv Hw E%urlencode_inj. congruence.
Qed.

(** ** More on trimming *)

Lemma white_space_only_app (a b : string) :
  white_space_only a -> white_space_only b -> white_space_only (a +:+ b).
Proof.
  induction 1 as [|w r Hw Hr IH]; intros Hb; [exact Hb|].
  rewrite append_assoc. constructor; auto.
Qed.

Lemma drop_white_space_split (n : nat) (s : string) :
  exists w, s = w +:+ drop_white_space n s /\ white_space_only w.
Proof.
  revert s; induction n as [|n IH]; intros s; cbn [drop_white_space].
  - exists "". split; [reflexivity | constructor].
  - destruct (white_space_prefix s) as [r|] eqn:E.
    + apply white_space_prefix_Some in E as (w & Hw & ->).
      destruct (IH r) as (w' & Hr & Hw').
      exists (w +:+ w'). split; [|now constructor].
      rewrite append_assoc. now rewrite <- Hr.
    + exists "". split; [reflexivity | constructor].
Qed.

Lemma trimEnd_split (s : string) :
  exists w, s = trimEnd s +:+ w /\ white_space_only w.
Proof.
  induction s as [|c r IH]; [exists ""; split; [reflexivity | constructor]|].
  cbn [trimEnd]. destruct (is_empty (trimStart (String c r))) eqn:E.
  - exists (String c r). split; [reflexivity|].
    apply trimStart_empty. now apply is_empty_true.
  - destruct IH as (w & Hr & Hw). exists w. split; [|exact Hw].
    rewrite append_String. now rewrite <- Hr.
Qed.

Lemma white_space_char_cons (w : string) :
  In w white_space_chars -> exists c r, w = String c r.
Proof.
  intros Hw%white_space_chars_nonempty. destruct w; [simpl in Hw; lia | eauto].
Qed.

Lemma trimEnd_no_white_space (s : string) : ~ ends_with_white_space (trimEnd s).
Proof.
  induction s as [|c r IH]; intros (a & w & E & Hw).
  - destruct (white_space_char_cons w Hw) as (c & r & ->).
    destruct a; discriminate E.
  - cbn [trimEnd] in E. destruct (is_empty (trimStart (String c r))) eqn:Et.
    + destruct (white_space_char_cons w Hw) as (c' & r' & ->).
      destruct a; discriminate E.
    + destruct a as [|c' a].
      * rewrite append_Empty in E.
        destruct (trimEnd_split r) as (w' & Hr & Hw').
        assert (white_space_only (String c r)) as Hs.
        { rewrite Hr, <- append_String, E. now constructor. }
        apply trimStart_empty in Hs. rewrite Hs in Et. discriminate.
      * rewrite append_String in E. injection E as _ E.
        apply IH. exists a, w. auto.
Qed.

(** [s.trim()] is [s] without the white space at its two ends. *)
Lemma trim_trimmed_of (s : string) : trimmed_of s (trim s).
Proof.
  unfold trimmed_of, trim.
  destruct (drop_white_space_split (String.length s) s) as (w1 & Hs & Hw1).
  fold (trimStart s) in Hs.
  destruct (trimEnd_split (trimStart s)) as (w2 & Ht & Hw2).
  split; [|split].
  - exists w1, w2. split; [|auto]. rewrite Hs at 1. now rewrite <- Ht.
  - destruct (white_space_prefix (trimEnd (trimStart s))) as [x|] eqn:E;
      [|reflexivity].
    apply white_space_prefix_Some in E as (w & Hw & E).
    pose proof (trimStart_done s) as F.
    rewrite Ht, E, append_assoc in F.
    rewrite (proj2 (white_space_prefix_Some _ _)) in F by eauto. discriminate.
  - apply trimEnd_no_white_space.
Qed.

Lemma white_space_only_ends (s : string) :
  white_space_only s -> s = "" \/ ends_with_white_space s.
Proof.
  induction 1 as [|w r Hw Hr IH]; [now left|]. right.
  destruct IH as [->|(a & w' & -> & Hw')].
  - exists "", w. rewrite append_nil_r. auto.
  - exists (w +:+ a), w'. now rewrite append_assoc.
Qed.

Lemma trimStart_id (s : string) : white_space_prefix s = None -> trimStart s = s.
Proof.
  intros E. unfold trimStart. destruct (String.length s); cbn [drop_white_space];
    [reflexivity | now rewrite E].
Qed.

Lemma trimEnd_id (s : string) : ~ ends_with_white_space s -> trimEnd s = s.
Proof.
  induction s as [|c r IH]; intros Hs; [reflexivity|].
  cbn [trimEnd]. destruct (is_empty (trimStart (String c r))) eqn:E.
  - apply is_empty_true, trimStart_empty, white_space_only_ends in E.
    destruct E as [E|E]; [discriminate | contradiction].
  - f_equal. apply IH. intros (a & w & -> & Hw). apply Hs.
    exists (String c a), w. now rewrite append_String.
Qed.

(** X5: trimming is the identity on a string that has no white space at
    its ends, so that trimming twice is trimming once; and the query the
    filters send is, when present, the input without the white space at its
    two ends, never empty, and is absent exactly for a blank input. *)
Theorem filters_q_trimmed (s : App.State) :
  trim (trim (App.q s)) = trim (App.q s) /\
  (api.q (App.filters s) = None <-> blank (App.q s)) /\
  (forall v, api.q (App.filters s) = Some v ->
             is_empty v = false /\ trimmed_of (App.q s) v).
Proof.
  destruct (trim_trimmed_of (App.q s)) as (Hsplit & Hstart & Hend).
  split; [|split].
  - unfold trim at 1. rewrite (trimStart_id _ Hstart). now apply trimEnd_id.
  - cbn [App.filters api.q]. rewrite <- blank_is_empty_trim.
    unfold or_undefined, truthy_string.
    destruct (is_empty (trim (App.q s))); cbn [negb]; split; congruence.
  - cbn [App.filters api.q]. unfold or_undefined, truthy_string. intros v.
    destruct (is_empty (trim (App.q s))) eqn:E; cbn [negb]; [discriminate|].
    intros [= <-]. split; [exact E | apply trim_trimmed_of].
Qed.

(** X6: the body of the POST that a create action issues holds the name
    and the URL of the form without the white space at their ends, neither
    of them empty, the site type selected, and as criteria the empty object
    for a blank text and otherwise what [JSON.parse] made of the text. *)
Theorem onCreate_payload (s : App.State) f k
    (Hawait : awaiting (App.onCreate s) = Some (f, k)) :
  exists n u criteria,
    fetch_method f = Some "POST" /\
    fetch_url f = api.API_BASE +:+ "/tasks" /\
    fetch_body f = Some (JObj [ ("name", JStr n); ("url", JStr u);
                                ("site_type", JStr (SiteType_str (App.createSiteType s)));
                                ("criteria", criteria) ]) /\
    (is_empty n = false /\ trimmed_of (App.name s) n) /\
    (is_empty u = false /\ trimmed_of (App.url s) u) /\
    (if is_empty (trim (App.criteriaText s)) then criteria = JObj []
     else JSON_parse (App.criteriaText s) = Some criteria).
Proof.
  destruct (onCreate_awaiting s f k Hawait) as (criteria & Hn & Hu & Hc & Hf & _).
  apply not_blank_trim in Hn, Hu.
  exists (trim (App.name s)), (trim (App.url s)), criteria.
  cbn in Hf. injection Hf as <-. cbn [fetch_method fetch_url fetch_body].
  split; [reflexivity|]. split; [reflexivity|]. split; [reflexivity|].
  split; [split; [exact Hn | apply trim_trimmed_of]|].
  split; [split; [exact Hu | apply trim_trimmed_of]|].
  revert Hc. unfold App.criteria_of, truthy_string.
  destruct (is_empty (trim (App.criteriaText s))); cbn [negb]; congruence.
Qed.

(** ** More of the controller *)

(** *** Reloads *)

Lemma load_result_Ok (o : FetchOutcome) (v : jsval) :
  App.load_result o = Ok v <->
  exists res body,
    o = Resolved res /\ res_ok res = true /\ res_status res <> 204%Z /\
    res_json res = Ok body /\ body <> JNull /\ v = prop body "items".
Proof.
  unfold App.load_result. split.
  - destruct (api.req_settled o) as [d|e] eqn:Ho; [|discriminate].
    apply req_settled_Ok in Ho as (res & -> & Hok & [[_ ->]|[E (body & Hj & ->)]]);
      [discriminate|].
    destruct body; cbn [read_prop]; try discriminate;
      intros [= <-]; exists res; eexists; repeat split; eauto; discriminate.
  - intros (res & body & -> & Hok & E & Hj & Hb & ->).
    rewrite (proj2 (req_settled_Ok (Resolved res) (Some body))).
    + destruct body; try reflexivity. contradiction.
    + exists res. split; [reflexivity|]. split; [exact Hok|]. right. eauto.
Qed.

(** X7: a reload ends with a list exactly when its response is ok, is not
    a 204 and has a JSON body other than [null]; the list is then the
    [items] of the body, [undefined] when the body has none. A 204 and a
    [null] body end as failures, with the TypeError of the engine. *)
Theorem load_result_cases (o : FetchOutcome) :
  (forall v,
      App.load_result o = Ok v <->
      exists res body,
        o = Resolved res /\ res_ok res = true /\ res_status res <> 204%Z /\
        res_json res = Ok body /\ body <> JNull /\ v = prop body "items") /\
  (forall res,
      o = Resolved res -> res_ok res = true ->
      res_status res = 204%Z \/ res_json res = Ok JNull ->
      exists data, App.load_result o = Fail (TypeError_of_read data "items")).
Proof.
  split; [intros v; apply load_result_Ok|].
  intros res -> Hok Hcase. unfold App.load_result, api.req_settled.
  rewrite Hok. cbn [negb].
  destruct (Z.eqb_spec (res_status res) 204) as [E|E]; [eexists; reflexivity|].
  destruct Hcase as [E'|Hj]; [contradiction|]. rewrite Hj. eexists; reflexivity.
Qed.

Lemma reloaded_fields (o : FetchOutcome) (s : App.State) :
  App.loading (App.reloaded o s) = false /\
  App.q (App.reloaded o s) = App.q s /\
  App.siteType (App.reloaded o s) = App.siteType s /\
  App.status (App.reloaded o s) = App.status s /\
  App.name (App.reloaded o s) = App.name s /\
  App.url (App.reloaded o s) = App.url s /\
  App.createSiteType (App.reloaded o s) = App.createSiteType s /\
  App.criteriaText (App.reloaded o s) = App.criteriaText s.
Proof.
  unfold App.reloaded. destruct (App.load_result o); destruct s; repeat split.
Qed.

(** X8: when the request of a reload settles, whatever else is in flight:
    loading ends in every case; a success replaces the list and leaves the
    error as it is; a failure sets the error and leaves the list as it is;
    the filters and the create form are untouched and no request is
    issued. *)
Theorem reload_outcome (c : App.Config) (rid : nat) (o : FetchOutcome) r
    (Hpending : App.pending c !! rid = Some r) (Hreload : App.is_reload r) :
  let s := App.state c in
  let s' := App.state (App.step c (App.Settle rid o)) in
  App.loading s' = false /\
  (App.q s', App.siteType s', App.status s') = (App.q s, App.siteType s, App.status s) /\
  (App.name s', App.url s', App.createSiteType s', App.criteriaText s')
  = (App.name s, App.url s, App.createSiteType s, App.criteriaText s) /\
  App.log (App.step c (App.Settle rid o)) = App.log c /\
  App.pending (App.step c (App.Settle rid o)) = delete rid (App.pending c) /\
  match App.load_result o with
  | Ok v => App.items s' = v /\ App.err s' = App.err s
  | Fail e => App.items s' = App.items s /\
              App.err s' = Some (nullish (message e) "Ошибка загрузки")
  end.
Proof.
  cbn zeta. rewrite (reload_settles c rid o r Hpending Hreload).
  cbn [App.state App.log App.pending].
  destruct (reloaded_fields o (App.state c)) as (Hl & Hq & Ht & Hs & Hn & Hu & Hc & Hx).
  rewrite Hl, Hq, Ht, Hs, Hn, Hu, Hc, Hx, reloaded_err.
  do 5 (split; [reflexivity|]).
  destruct (App.load_result o) as [v|e] eqn:E.
  - split; [now apply reloaded_items | reflexivity].
  - split; [now apply (reloaded_items_Fail o _ e) | reflexivity].
Qed.

(** X9: loading is not a count of the requests in flight: when one of two
    requests in flight is a reload and settles, loading ends although the
    other is still in flight, and the buttons take clicks again. *)
Theorem loading_ends_with_request_in_flight (c : App.Config)
    (rid rid' : nat) (o : FetchOutcome) r r'
    (Hpending : App.pending c !! rid = Some r) (Hreload : App.is_reload r)
    (Hother : App.pending c !! rid' = Some r') (Hne : rid <> rid') :
  let c' := App.step c (App.Settle rid o) in
  App.loading (App.state c') = false /\
  App.pending c' !! rid' = Some r' /\
  App.step c' App.ClickRefresh = App.invoke App.load c' /\
  App.step c' App.ClickCreate = App.invoke App.onCreate c'.
Proof.
  cbn zeta.
  assert (App.loading (App.state (App.step c (App.Settle rid o))) = false) as Hl.
  { rewrite (reload_settles c rid o r Hpending Hreload). cbn [App.state].
    apply reloaded_fields. }
  split; [exact Hl|]. split.
  - rewrite (reload_settles c rid o r Hpending Hreload). cbn [App.pending].
    now rewrite lookup_delete_ne.
  - destruct (step_click _ Hl) as (Hc & Hr & _). auto.
Qed.

(** *** Delete and status change *)

Lemma invoke_eq (h : App.State -> proc unit) (c : App.Config) :
  App.invoke h c =
  {| App.state := App.after_calls (h (App.state c)) (App.state c);
     App.pending := match awaiting (h (App.state c)) with
                    | Some r => <[App.next c := r]> (App.pending c)
                    | None => App.pending c
                    end;
     App.next := match awaiting (h (App.state c)) with
                 | Some _ => S (App.next c)
                 | None => App.next c
                 end;
     App.log := match awaiting (h (App.state c)) with
                | Some r => (App.log c ++ [fst r])%list
                | None => App.log c
                end |}.
Proof. apply run_eq. Qed.

(** X10: a delete whose prompt is confirmed sets loading, clears the error
    and issues DELETE on the path of the task, without a body. When that
    request settles, whatever else is in flight, the list is as it was
    (it is never patched in place): on success [load] starts, with one
    list request for the filters of the render the delete was called in;
    on failure the error is set, loading ends and nothing is issued. *)
Theorem onDelete_confirmed (s : App.State) (confirm : string -> bool) (id : string)
    f k (Hawait : awaiting (App.onDelete confirm id s) = Some (f, k)) :
  confirm "Удалить задачу?" = true /\
  f = {| fetch_url := api.API_BASE +:+ "/tasks/" +:+ id;
         fetch_method := Some "DELETE"; fetch_body := None;
         fetch_headers := [("Content-Type", "application/json")] |} /\
  App.after_calls (App.onDelete confirm id s) s
  = App.apply (setErr None) (App.apply (setLoading true) s) /\
  exists f' k',
    request_of (api.listTasks (Some (App.filters s))) = Some f' /\
    App.is_reload (f', k') /\
    forall (c : App.Config) (rid : nat) (o : FetchOutcome),
      App.pending c !! rid = Some (f, k) ->
      let c' := App.step c (App.Settle rid o) in
      App.items (App.state c') = App.items (App.state c) /\
      match api.req_settled o with
      | Ok _ =>
          App.loading (App.state c') = true /\
          App.err (App.state c') = None /\
          App.log c' = (App.log c ++ [f'])%list /\
          App.pending c' = <[App.next c := (f', k')]> (delete rid (App.pending c))
      | Fail e =>
          App.loading (App.state c') = false /\
          App.err (App.state c') = Some (nullish (message e) "Ошибка удаления") /\
          App.log c' = App.log c /\
          App.pending c' = delete rid (App.pending c)
      end.
Proof.
  assert (confirm "Удалить задачу?" = true) as Hc.
  { revert Hawait. unfold App.onDelete.
    destruct (confirm _); [reflexivity | discriminate]. }
  split; [exact Hc|]. split; [|split].
  - revert Hawait. unfold App.onDelete. rewrite Hc. cbn. now intros [= <- _].
  - unfold App.onDelete. rewrite Hc. reflexivity.
  - destruct (action_settles s _ _ _ f k (App.action_onDelete s confirm id) Hawait)
      as (f' & k' & Hf' & Hr & Hstep).
    exists f', k'. split; [exact Hf'|]. split; [exact Hr|].
    intros c rid o Hl. cbn zeta. rewrite (Hstep c rid o Hl).
    destruct (api.req_settled o); cbn [App.state App.log App.pending];
      destruct (App.state c); repeat split.
Qed.

(** X11: a status change issues PATCH on the path of the task with the new
    status as body, whether or not loading is set (its selector is never
    disabled). When that request settles, whatever else is in flight, the
    list is as it was: on success [load] starts, with one list request for
    the filters of the render the change was called in; on failure the
    error is set, loading ends and nothing is issued. *)
Theorem onStatus_flow (s : App.State) (id : string) (newStatus : TaskStatus) :
  exists f k,
    awaiting (App.onStatus id newStatus s) = Some (f, k) /\
    f = {| fetch_url := api.API_BASE +:+ "/tasks/" +:+ id;
           fetch_method := Some "PATCH";
           fetch_body := Some (JObj [("status", JStr (TaskStatus_str newStatus))]);
           fetch_headers := [("Content-Type", "application/json")] |} /\
    (forall c : App.Config,
        App.state c = s ->
        App.step c (App.SelectTaskStatus id newStatus) =
        {| App.state := App.apply (setErr None) (App.apply (setLoading true) s);
           App.pending := <[App.next c := (f, k)]> (App.pending c);
           App.next := S (App.next c);
           App.log := (App.log c ++ [f])%list |}) /\
    exists f' k',
      request_of (api.listTasks (Some (App.filters s))) = Some f' /\
      App.is_reload (f', k') /\
      forall (c : App.Config) (rid : nat) (o : FetchOutcome),
        App.pending c !! rid = Some (f, k) ->
        let c' := App.step c (App.Settle rid o) in
        App.items (App.state c') = App.items (App.state c) /\
        match api.req_settled o with
        | Ok _ =>
            App.loading (App.state c') = true /\
            App.err (App.state c') = None /\
            App.log c' = (App.log c ++ [f'])%list /\
            App.pending c' = <[App.next c := (f', k')]> (delete rid (App.pending c))
        | Fail e =>
            App.loading (App.state c') = false /\
            App.err (App.state c')
            = Some (nullish (message e) "Ошибка обновления статуса") /\
            App.log c' = App.log c /\
            App.pending c' = delete rid (App.pending c)
        end.
Proof.
  eexists _, _. split; [reflexivity|]. split; [reflexivity|]. split.
  - intros c <-. unfold App.step. cbn [App.handle].
    rewrite effect_same.
    + rewrite invoke_eq. reflexivity.
    + symmetry. apply run_keeps. eapply calls_only_mono;
        [apply handler_keeps_deps | apply onStatus_calls].
  - destruct (action_settles s _ _ _ _ _ (App.action_onStatus s id newStatus) eq_refl)
      as (f' & k' & Hf' & Hr & Hstep).
    exists f', k'. split; [exact Hf'|]. split; [exact Hr|].
    intros c rid o Hl. cbn zeta. rewrite (Hstep c rid o Hl).
    destruct (api.req_settled o); cbn [App.state App.log App.pending];
      destruct (App.state c); repeat split.
Qed.

(** *** The effect *)

Lemma or_undefined_inj (a b : string) : or_undefined a = or_undefined b <-> a = b.
Proof.
  unfold or_undefined, truthy_string.
  destruct a, b; cbn; split; congruence.
Qed.

Lemma deps_eq (s s' : App.State) :
  App.deps s = App.deps s' <->
  trim (App.q s) = trim (App.q s') /\
  App.siteType s = App.siteType s' /\
  App.status s = App.status s'.
Proof.
  unfold App.deps. cbn [App.filters api.q api.site_type api.status]. split.
  - intros [= Hq Ht Hs]. now rewrite <- !or_undefined_inj.
  - intros (-> & -> & ->). reflexivity.
Qed.

(** What [load] does when it is called: loading is set, the error is
    cleared and its list request is in flight. *)
Lemma invoke_load (c : App.Config) :
  exists f k,
    request_of (api.listTasks (Some (App.filters (App.state c)))) = Some f /\
    App.is_reload (f, k) /\
    App.invoke App.load c =
    {| App.state := App.apply (setErr None) (App.apply (setLoading true) (App.state c));
       App.pending := <[App.next c := (f, k)]> (App.pending c);
       App.next := S (App.next c);
       App.log := (App.log c ++ [f])%list |}.
Proof.
  eexists _, _. split; [reflexivity|]. split.
  - split; [eauto|]. exists (App.state c), (App.load (App.state c)).
    split; [constructor | left; reflexivity].
  - rewrite invoke_eq. reflexivity.
Qed.

(** The step of an input: the field is set, and [load] is called when a
    dependency of the effect has changed. *)
Lemma step_input (u : Setter) (c : App.Config) :
  App.effect (App.state c) (App.input u c) =
  if decide (App.deps (App.state c) = App.deps (App.apply u (App.state c)))
  then App.input u c else App.invoke App.load (App.input u c).
Proof. reflexivity. Qed.

(** X12: an edit of a filter input calls [load], once, exactly when the
    filter that would be sent changes: for the query, when its trimmed
    value changes (white space typed at an end reloads nothing); for the
    two selectors, when the value changes. The reload sets loading, clears
    the error and issues one list request for the new filters. An edit of
    the create form never issues a request. *)
Theorem filter_edit_reloads (c : App.Config) (e : App.Event) (u : Setter)
    (Hedit : (exists v, e = App.ChangeQ v /\ u = setQ v) \/
             (exists v, e = App.ChangeSiteType v /\ u = setSiteType v) \/
             (exists v, e = App.ChangeStatus v /\ u = setStatus v)) :
  let s' := App.apply u (App.state c) in
  let same := trim (App.q s') = trim (App.q (App.state c)) /\
              App.siteType s' = App.siteType (App.state c) /\
              App.status s' = App.status (App.state c) in
  (same -> App.step c e = App.input u c) /\
  (~ same ->
   exists f k,
     request_of (api.listTasks (Some (App.filters s'))) = Some f /\
     App.is_reload (f, k) /\
     App.step c e =
     {| App.state := App.apply (setErr None) (App.apply (setLoading true) s');
        App.pending := <[App.next c := (f, k)]> (App.pending c);
        App.next := S (App.next c);
        App.log := (App.log c ++ [f])%list |}) /\
  (forall v, App.step c (App.ChangeName v) = App.input (setName v) c) /\
  (forall v, App.step c (App.ChangeUrl v) = App.input (setUrl v) c) /\
  (forall v, App.step c (App.ChangeCreateSiteType v) = App.input (setCreateSiteType v) c) /\
  (forall v, App.step c (App.ChangeCriteriaText v) = App.input (setCriteriaText v) c).
Proof.
  cbn zeta.
  assert (App.step c e = App.effect (App.state c) (App.input u c)) as ->
    by (destruct Hedit as [(v & -> & ->)|[(v & -> & ->)|(v & -> & ->)]]; reflexivity).
  rewrite step_input. split; [|split].
  - intros Hsame. rewrite decide_True; [reflexivity|].
    symmetry. now apply deps_eq.
  - intros Hdiff. rewrite decide_False.
    + destruct (invoke_load (App.input u c)) as (f & k & Hf & Hr & ->).
      exists f, k. auto.
    + intros E. apply Hdiff. apply deps_eq. now symmetry.
  - repeat split; intros v; unfold App.step; cbn [App.handle];
      apply effect_same; now destruct c as [[]].
Qed.

(** *** What holds in every configuration the component reaches *)

Lemma listTasks_tasks_request (params : option api.ListParams) (f : Fetch) :
  request_of (api.listTasks params) = Some f -> App.tasks_request f.
Proof.
  cbn -[api.listTasks_path]. intros [= <-]. unfold App.tasks_request.
  cbn [fetch_url fetch_headers fetch_method fetch_body].
  split; [|auto]. unfold api.listTasks_path. eauto.
Qed.

Lemma is_reload_tasks_request r : App.is_reload r -> App.tasks_request (fst r).
Proof. intros [[params Hf] _]. now apply (listTasks_tasks_request params). Qed.

Lemma action_tasks_request (s : App.State) p fallback reset f k :
  App.action s p fallback reset -> awaiting p = Some (f, k) -> App.tasks_request f.
Proof.
  intros Hp Ha. destruct Hp.
  - destruct (onCreate_awaiting _ _ _ Ha) as (criteria & _ & _ & _ & Hf & _).
    cbn in Hf. injection Hf as <-. unfold App.tasks_request.
    cbn [fetch_url fetch_headers fetch_method fetch_body].
    split; [exists ""; reflexivity|]. split; [reflexivity|]. right. left. eauto.
  - revert Ha. unfold App.onDelete. destruct (negb _); [discriminate|].
    cbn. intros [= <- _]. unfold App.tasks_request.
    cbn [fetch_url fetch_headers fetch_method fetch_body].
    split; [exists ("/" +:+ id); reflexivity|]. split; [reflexivity|].
    right. right. left. auto.
  - revert Ha. cbn. intros [= <- _]. unfold App.tasks_request.
    cbn [fetch_url fetch_headers fetch_method fetch_body].
    split; [exists ("/" +:+ id); reflexivity|]. split; [reflexivity|].
    right. right. right. eauto.
Qed.

(** A request that a function of the component waits for first. *)
Lemma handler_first_known (s : App.State) p r :
  App.handler s p -> awaiting p = Some r ->
  App.is_reload r \/
  exists s' p' fallback reset, App.action s' p' fallback reset /\ awaiting p' = Some r.
Proof.
  intros Hp Ha. destruct Hp.
  - left. split.
    + revert Ha. cbn -[api.listTasks_path App.filters]. intros [= <-]. eauto.
    + exists s, (App.load s). split; [constructor | now left].
  - right. exists s, (App.onCreate s). eexists _, _. split; [constructor | exact Ha].
  - right. exists s, (App.onDelete confirm id s). eexists _, _.
    split; [constructor | exact Ha].
  - right. exists s, (App.onStatus id newStatus s). eexists _, _.
    split; [constructor | exact Ha].
Qed.

Lemma known_tasks_request (c : App.Config) (rid : nat) r :
  App.in_flight_known c -> App.pending c !! rid = Some r -> App.tasks_request (fst r).
Proof.
  intros Hc Hl. destruct (Hc rid r Hl) as [Hr|(s & p & fb & reset & Hp & Ha)].
  - now apply is_reload_tasks_request.
  - destruct r as [f k]. exact (action_tasks_request _ _ _ _ _ _ Hp Ha).
Qed.

Lemma known_insert (c : App.Config) (rid : nat) r st nx lg :
  App.in_flight_known c ->
  (App.is_reload r \/
   exists s p fallback reset, App.action s p fallback reset /\ awaiting p = Some r) ->
  App.in_flight_known
    {| App.state := st; App.pending := <[rid := r]> (App.pending c);
       App.next := nx; App.log := lg |}.
Proof.
  intros Hc Hr rid' r' Hl. cbn [App.pending] in Hl.
  destruct (decide (rid = rid')) as [<-|Hne].
  - rewrite lookup_insert_eq in Hl. now injection Hl as <-.
  - rewrite lookup_insert_ne in Hl by assumption. exact (Hc rid' r' Hl).
Qed.

Lemma known_delete (c : App.Config) (rid : nat) st nx lg :
  App.in_flight_known c ->
  App.in_flight_known
    {| App.state := st; App.pending := delete rid (App.pending c);
       App.next := nx; App.log := lg |}.
Proof.
  intros Hc rid' r' Hl. cbn [App.pending] in Hl.
  apply lookup_delete_Some in Hl as [_ Hl]. exact (Hc rid' r' Hl).
Qed.

Lemma known_same (c : App.Config) st nx lg :
  App.in_flight_known c ->
  App.in_flight_known
    {| App.state := st; App.pending := App.pending c; App.next := nx; App.log := lg |}.
Proof. intros Hc rid r Hl. exact (Hc rid r Hl). Qed.

Lemma run_well_formed (s : App.State) p (c : App.Config) :
  App.handler s p -> App.well_formed c -> App.well_formed (App.run p c).
Proof.
  intros Hp [Hk Hlog]. rewrite run_eq.
  destruct (awaiting p) as [r|] eqn:Ha.
  - pose proof (handler_first_known s p r Hp Ha) as Hr. split.
    + now apply known_insert.
    + cbn [App.log]. apply Forall_app. split; [exact Hlog|].
      constructor; [|constructor].
      destruct Hr as [Hr|(s' & p' & fb & reset & Hp' & Ha')].
      * now apply is_reload_tasks_request.
      * destruct r as [f k]. exact (action_tasks_request _ _ _ _ _ _ Hp' Ha').
  - split; [now apply known_same | exact Hlog].
Qed.

Lemma effect_well_formed (before : App.State) (c : App.Config) :
  App.well_formed c -> App.well_formed (App.effect before c).
Proof.
  intros Hc. unfold App.effect. destruct (decide _); [exact Hc|].
  apply (run_well_formed (App.state c)); [constructor | exact Hc].
Qed.

Lemma settle_none (c : App.Config) (rid : nat) (o : FetchOutcome) :
  App.pending c !! rid = None -> App.step c (App.Settle rid o) = c.
Proof.
  intros Hl. unfold App.step. cbn [App.handle]. unfold App.settle. rewrite Hl.
  now apply effect_same.
Qed.

Lemma step_well_formed (c : App.Config) (e : App.Event) :
  App.well_formed c -> App.well_formed (App.step c e).
Proof.
  intros Hc. destruct e;
    try (apply effect_well_formed; cbn [App.handle]; unfold App.input;
         destruct Hc; split; [now apply known_same | assumption]).
  - apply effect_well_formed. cbn [App.handle]. unfold App.click.
    destruct (App.loading _); [exact Hc|].
    apply (run_well_formed (App.state c)); [constructor | exact Hc].
  - apply effect_well_formed. cbn [App.handle]. unfold App.click.
    destruct (App.loading _); [exact Hc|].
    apply (run_well_formed (App.state c)); [constructor | exact Hc].
  - apply effect_well_formed. cbn [App.handle]. unfold App.click.
    destruct (App.loading _); [exact Hc|].
    apply (run_well_formed (App.state c)); [constructor | exact Hc].
  - apply effect_well_formed. cbn [App.handle].
    apply (run_well_formed (App.state c)); [constructor | exact Hc].
  - destruct (App.pending c !! rid) as [r|] eqn:Hl;
      [|now rewrite settle_none].
    destruct Hc as [Hk Hlog].
    destruct (Hk rid r Hl) as [Hr|(s & p & fb & reset & Hp & Ha)].
    + rewrite (reload_settles c rid o r Hl Hr). split; [now apply known_delete | exact Hlog].
    + destruct r as [f k].
      destruct (action_settles s p fb reset f k Hp Ha) as (f' & k' & Hf' & Hr & Hstep).
      rewrite (Hstep c rid o Hl). destruct (api.req_settled o).
      * split.
        -- intros rid' r' Hl'. cbn [App.pending] in Hl'.
           destruct (decide (App.next c = rid')) as [<-|Hne].
           ++ rewrite lookup_insert_eq in Hl'. injection Hl' as <-. now left.
           ++ rewrite lookup_insert_ne in Hl' by assumption.
              apply lookup_delete_Some in Hl' as [_ Hl']. exact (Hk _ _ Hl').
        -- cbn [App.log]. apply Forall_app. split; [exact Hlog|].
           constructor; [|constructor]. exact (is_reload_tasks_request _ Hr).
      * split; [now apply known_delete | exact Hlog].
Qed.

Lemma reachable_well_formed (c : App.Config) : App.reachable c -> App.well_formed c.
Proof.
  induction 1 as [|c e Hc IH]; [|now apply step_well_formed].
  apply (run_well_formed App.initial); [constructor|].
  split; [|constructor]. intros rid r Hl. cbn in Hl.
  rewrite lookup_empty in Hl. discriminate.
Qed.

(** X13: every request the component ever issues is one of the four of
    the transport: it goes to the tasks resource with the JSON content
    type, as a GET or a DELETE without body or as a POST or a PATCH with
    one; and every request in flight is a list request of a reload or the
    request an action has just issued. *)
Theorem requests_are_of_the_transport (c : App.Config) (Hc : App.reachable c) :
  Forall App.tasks_request (App.log c) /\ App.in_flight_known c.
Proof. destruct (reachable_well_formed c Hc). auto. Qed.

Lemma handler_after_calls_items (s0 : App.State) p (s : App.State) :
  App.handler s0 p -> App.items (App.after_calls p s) = App.items s.
Proof.
  intros Hp. destruct Hp.
  - now destruct s.
  - unfold App.onCreate. cbn [mbind proc_bind bind call App.after_calls].
    destruct (is_empty (trim (App.name s0))); [now destruct s|].
    destruct (is_empty (trim (App.url s0))); [now destruct s|].
    destruct (App.criteria_of s0); now destruct s.
  - unfold App.onDelete. destruct (negb _); now destruct s.
  - now destruct s.
Qed.

Lemma invoke_items (s0 : App.State) (h : App.State -> proc unit) (c : App.Config) :
  App.handler (App.state c) (h (App.state c)) ->
  App.items (App.state (App.invoke h c)) = App.items (App.state c).
Proof.
  intros Hp. rewrite invoke_eq. cbn [App.state].
  now apply (handler_after_calls_items (App.state c)).
Qed.

Lemma effect_items (before : App.State) (c : App.Config) :
  App.items (App.state (App.effect before c)) = App.items (App.state c).
Proof.
  unfold App.effect. destruct (decide _); [reflexivity|].
  apply (invoke_items (App.state c)). constructor.
Qed.

(** X14: the list shown changes in one way only: a list request in flight
    settles with success, and the list becomes its result. No click, no
    input, no failure, and no success of a create, a delete or a status
    change touches the list. *)
Theorem items_change_only_by_reload (c : App.Config) (e : App.Event)
    (Hc : App.reachable c) :
  App.items (App.state (App.step c e)) = App.items (App.state c) \/
  exists rid o r v,
    e = App.Settle rid o /\ App.pending c !! rid = Some r /\ App.is_reload r /\
    App.load_result o = Ok v /\ App.items (App.state (App.step c e)) = v.
Proof.
  destruct (reachable_well_formed c Hc) as [Hk _].
  destruct e as [v|v|v|v|v|v|v| | |id answer|id newStatus|rid o];
    try (left; unfold App.step; rewrite effect_items; cbn [App.handle];
         now destruct c as [[]]).
  - left. unfold App.step. rewrite effect_items. cbn [App.handle]. unfold App.click.
    destruct (App.loading _); [reflexivity|].
    apply (invoke_items (App.state c)). constructor.
  - left. unfold App.step. rewrite effect_items. cbn [App.handle]. unfold App.click.
    destruct (App.loading _); [reflexivity|].
    apply (invoke_items (App.state c)). constructor.
  - left. unfold App.step. rewrite effect_items. cbn [App.handle]. unfold App.click.
    destruct (App.loading _); [reflexivity|].
    apply (invoke_items (App.state c) (App.onDelete (fun _ => answer) id)). constructor.
  - destruct (App.pending c !! rid) as [r|] eqn:Hl;
      [|left; now rewrite settle_none].
    destruct (Hk rid r Hl) as [Hr|(s & p & fb & reset & Hp & Ha)].
    + rewrite (reload_settles c rid o r Hl Hr). cbn [App.state].
      destruct (App.load_result o) as [v|e] eqn:Ho.
      * right. exists rid, o, r, v. split; [reflexivity|]. split; [exact Hl|].
        split; [exact Hr|]. split; [exact Ho|]. now apply reloaded_items.
      * left. now apply (reloaded_items_Fail o _ e).
    + left. destruct r as [f k].
      destruct (action_settles s p fb reset f k Hp Ha) as (f' & k' & _ & _ & Hstep).
      rewrite (Hstep c rid o Hl).
      destruct (api.req_settled o); cbn [App.state]; destruct Hp;
        now destruct (App.state c).
Qed.

Lemma handler_keeps_filters (u : Setter) :
  App.handler_setter u -> App.keeps App.filter_inputs u.
Proof. destruct u; cbn; try contradiction; intros _ [? ? ? ? ? ? ? ? ? ?]; reflexivity. Qed.

Lemma step_keeps_filters (c : App.Config) (e : App.Event) :
  App.pending_calls_only App.handler_setter c ->
  App.edits_filter e = false ->
  App.filter_inputs (App.state (App.step c e)) = App.filter_inputs (App.state c) /\
  App.step c e = App.handle e c.
Proof.
  intros Hc He.
  assert (App.filter_inputs (App.state (App.handle e c))
          = App.filter_inputs (App.state c)) as Hh.
  { destruct e; cbn [App.handle]; try discriminate;
      try (now destruct c as [[]]);
      unfold App.click, App.invoke;
      try (destruct (App.loading (App.state c)); [reflexivity|]).
    - apply run_keeps. eapply calls_only_mono;
        [apply handler_keeps_filters | apply onCreate_calls].
    - apply run_keeps. eapply calls_only_mono;
        [apply handler_keeps_filters | apply load_calls].
    - apply run_keeps. eapply calls_only_mono;
        [apply handler_keeps_filters | apply onDelete_calls].
    - apply settle_keeps; [apply handler_keeps_filters | exact Hc]. }
  assert (App.step c e = App.handle e c) as Hstep.
  { unfold App.step. apply effect_same. injection Hh as Hq Ht Hs.
    apply deps_eq. now rewrite Hq, Ht, Hs. }
  split; [now rewrite Hstep | exact Hstep].
Qed.

(** X15: the controller never writes the filter inputs: from any
    configuration the component reaches, whatever happens short of the
    user editing a filter input leaves the query, the site type and the
    status of the filter as they are, and the effect calls no [load]: each
    such step is the handler of its event and nothing more. *)
Theorem filters_kept (c : App.Config) (es : list App.Event)
    (Hc : App.reachable c)
    (Hes : Forall (fun e => App.edits_filter e = false) es) :
  let c' := App.steps c es in
  App.filter_inputs (App.state c') = App.filter_inputs (App.state c) /\
  c' = fold_left (fun c e => App.handle e c) es c.
Proof.
  cbn zeta. revert c Hc; induction Hes as [|e es He Hes IH]; intros c Hc;
    [split; reflexivity|].
  cbn [App.steps fold_left]. fold (App.steps (App.step c e) es).
  destruct (step_keeps_filters c e (reachable_pending c Hc) He) as [Hf Hstep].
  destruct (IH (App.step c e)) as [IHf IHs]; [now constructor|].
  split; [now rewrite IHf | now rewrite IHs, Hstep].
Qed.

(** *** Clicks and the local checks *)

Lemma apply_setErr_twice (m m' : option string) (s : App.State) :
  App.apply (setErr m) (App.apply (setErr m') s) = App.apply (setErr m) s.
Proof. now destruct s. Qed.

(** X16: the create action issues its request exactly when the three
    local checks pass: the name and the URL are not blank and the criteria
    text is blank or is JSON. When a check fails the action sets the error
    to that check's message and changes nothing else: every input of the
    form stays as it was typed. *)
Theorem onCreate_local_checks (c : App.Config) :
  let s := App.state c in
  (App.validation_error s = None <-> exists r, awaiting (App.onCreate s) = Some r) /\
  (App.validation_error s = None <->
   ~ blank (App.name s) /\ ~ blank (App.url s) /\
   (blank (App.criteriaText s) \/ exists j, JSON_parse (App.criteriaText s) = Some j)) /\
  (forall m, App.validation_error s = Some m ->
             App.invoke App.onCreate c = App.input (setErr (Some m)) c).
Proof.
  cbn zeta. rewrite invoke_eq. unfold App.validation_error, App.onCreate, App.input.
  rewrite !not_blank_trim, <- blank_is_empty_trim.
  cbn [mbind proc_bind bind call awaiting App.after_calls].
  destruct (is_empty (trim (App.name (App.state c)))).
  { split; [|split].
    - split; [discriminate | intros [r Hr]; discriminate].
    - split; [discriminate | intros (E & _); discriminate].
    - intros m [= <-]. cbn. now rewrite apply_setErr_twice. }
  destruct (is_empty (trim (App.url (App.state c)))).
  { split; [|split].
    - split; [discriminate | intros [r Hr]; discriminate].
    - split; [discriminate | intros (_ & E & _); discriminate].
    - intros m [= <-]. cbn. now rewrite apply_setErr_twice. }
  unfold App.criteria_of, truthy_string.
  destruct (is_empty (trim (App.criteriaText (App.state c)))); cbn [negb].
  { split; [|split].
    - split; [eexists; reflexivity | reflexivity].
    - split; [auto | reflexivity].
    - discriminate. }
  destruct (JSON_parse (App.criteriaText (App.state c))) as [j|].
  - split; [|split].
    + split; [eexists; reflexivity | reflexivity].
    + split; [eauto 6 | reflexivity].
    + discriminate.
  - split; [|split].
    + split; [discriminate | intros [r Hr]; discriminate].
    + split; [discriminate|]. intros (_ & _ & [E|[j E]]); discriminate.
    + intros m [= <-]. cbn. now rewrite apply_setErr_twice.
Qed.

Lemma handler_after_calls_loading (s0 : App.State) p (s : App.State) :
  App.handler s0 p ->
  App.loading (App.after_calls p s)
  = match awaiting p with Some _ => true | None => App.loading s end.
Proof.
  intros Hp. destruct Hp.
  - now destruct s.
  - unfold App.onCreate. cbn [mbind proc_bind bind call awaiting App.after_calls].
    destruct (is_empty (trim (App.name s0))); [now destruct s|].
    destruct (is_empty (trim (App.url s0))); [now destruct s|].
    destruct (App.criteria_of s0); now destruct s.
  - unfold App.onDelete. destruct (negb _); now destruct s.
  - now destruct s.
Qed.

Lemma click_handler (c : App.Config) (e : App.Event) :
  App.is_click e = true ->
  exists h, App.handler (App.state c) (h (App.state c)) /\
            App.handle e c = App.click h c.
Proof.
  destruct e; try discriminate; intros _.
  - exists App.onCreate. split; [constructor | reflexivity].
  - exists App.load. split; [constructor | reflexivity].
  - exists (App.onDelete (fun _ => answer) id). split; [constructor | reflexivity].
Qed.

Lemma step_click_loading (c : App.Config) (e : App.Event) :
  App.is_click e = true -> App.loading (App.state c) = true -> App.step c e = c.
Proof.
  intros He Hl. destruct (click_handler c e He) as (h & _ & Hh).
  unfold App.step. rewrite Hh. unfold App.click. rewrite Hl. now apply effect_same.
Qed.

(** X17: the three buttons look at the loading flag and at nothing
    else. While loading is set a click on any of them changes nothing.
    While it is not set, whatever requests are in flight, a click either
    issues nothing and leaves loading unset (a local check of the create
    form failed, or the prompt of a delete was declined), or sets loading
    and issues one request, which joins those in flight. *)
Theorem click_guarded_by_loading (c : App.Config) (e : App.Event)
    (Hclick : App.is_click e = true) :
  let c1 := App.step c e in
  (App.loading (App.state c) = true -> c1 = c) /\
  (App.loading (App.state c) = false ->
   (App.loading (App.state c1) = false /\
    App.log c1 = App.log c /\ App.pending c1 = App.pending c) \/
   (App.loading (App.state c1) = true /\
    exists r,
      App.log c1 = (App.log c ++ [fst r])%list /\
      App.pending c1 = <[App.next c := r]> (App.pending c))).
Proof.
  cbn zeta. split; [now apply step_click_loading|]. intros Hloading.
  destruct (click_handler c e Hclick) as (h & Hh & Hhandle).
  assert (App.step c e = App.invoke h c) as ->.
  { unfold App.step. rewrite Hhandle. unfold App.click. rewrite Hloading.
    apply effect_same. symmetry. apply run_keeps.
    eapply calls_only_mono; [apply handler_keeps_deps|].
    destruct Hh; [apply load_calls | apply onCreate_calls
                 | apply onDelete_calls | apply onStatus_calls]. }
  pose proof (handler_after_calls_loading _ _ (App.state c) Hh) as Hl.
  rewrite invoke_eq. destruct (awaiting (h (App.state c))) as [r|].
  - right. cbn [App.state App.log App.pending]. split; [exact Hl|]. eauto.
  - left. cbn [App.state App.log App.pending]. rewrite Hl. auto.
Qed.
(** *** The path of a list request and the filters *)

Lemma read_fields_inj (a b c a' b' c' : string) :
  (api.read_field "status" a ++ api.read_field "site_type" b
   ++ api.read_field "q" c)%list
  = (api.read_field "status" a' ++ api.read_field "site_type" b'
     ++ api.read_field "q" c')%list ->
  a = a' /\ b = b' /\ c = c'.
Proof.
  unfold api.read_field.
  destruct a as [|? ?], a' as [|? ?], b as [|? ?], b' as [|? ?],
    c as [|? ?], c' as [|? ?]; cbn [is_empty app]; intros E;
    first [discriminate E | injection E; intros; subst; now auto | now auto].
Qed.

Lemma filters_path_USVString (s s' : App.State) :
  api.listTasks_path (Some (App.filters s))
  = api.listTasks_path (Some (App.filters s')) <->
  USVString (trim (App.q s)) = USVString (trim (App.q s')) /\
  USVString (App.siteType s) = USVString (App.siteType s') /\
  USVString (App.status s) = USVString (App.status s').
Proof.
  split.
  - destruct (filters_query_parsed s) as (qs & -> & Hqs).
    destruct (filters_query_parsed s') as (qs' & -> & Hqs').
    intros E%append_inj_l. rewrite E, Hqs' in Hqs. injection Hqs as Hqs.
    apply read_fields_inj in Hqs as (Ha & Hb & Hc). auto.
  - intros (Hq & Ht & Hs). rewrite !filters_path.
    now rewrite (query_part_USVString "status" _ _ Hs),
      (query_part_USVString "site_type" _ _ Ht),
      (query_part_USVString "q" _ _ Hq).
Qed.

(** X18: the path of the list request tells the filters apart as far as
    the serializer does: two renders send the same path exactly when
    their trimmed queries, their site types and their statuses are the
    same as USVStrings. The effect compares the strings themselves: when
    it sees no dependency change the path is the same, and the converse
    holds for filters without a surrogate that has no partner. *)
Theorem filters_path_tells_filters (s s' : App.State) :
  (api.listTasks_path (Some (App.filters s))
   = api.listTasks_path (Some (App.filters s')) <->
   USVString (trim (App.q s)) = USVString (trim (App.q s')) /\
   USVString (App.siteType s) = USVString (App.siteType s') /\
   USVString (App.status s) = USVString (App.status s')) /\
  (App.deps s = App.deps s' ->
   api.listTasks_path (Some (App.filters s))
   = api.listTasks_path (Some (App.filters s'))) /\
  (scalar (trim (App.q s)) /\ scalar (App.siteType s) /\ scalar (App.status s) ->
   scalar (trim (App.q s')) /\ scalar (App.siteType s') /\ scalar (App.status s') ->
   api.listTasks_path (Some (App.filters s))
   = api.listTasks_path (Some (App.filters s')) ->
   App.deps s = App.deps s').
Proof.
  split; [apply filters_path_USVString|]. split.
  - intros (Hq & Ht & Hs)%deps_eq. apply filters_path_USVString.
    now rewrite Hq, Ht, Hs.
  - unfold scalar. intros (Hq & Ht & Hs) (Hq' & Ht' & Hs').
    intros (Eq & Et & Es)%filters_path_USVString. apply deps_eq.
    rewrite Hq, Hq' in Eq. rewrite Ht, Ht' in Et. rewrite Hs, Hs' in Es. auto.
Qed.

End Controller.

(** ** Examples and witnesses *)

#[local] Existing Instance Sample.engine.

Example trim_example :
  trim (" " +:+ utf8 0x3000 +:+ "ab c" +:+ utf8 0xA0 +:+ utf8 0x9) = "ab c".
Proof. reflexivity. Qed.

Example listTasks_path_example :
  api.listTasks_path
    (Some {| api.limit := Some 50%Z; api.offset := Some 0%Z;
             api.status := Some ""; api.site_type := Some "news";
             api.q := Some "a b&c" |})
  = "/tasks?limit=50&offset=0&site_type=news&q=a+b%26c".
Proof. reflexivity. Qed.

Example typing_log :
  map fetch_url (App.log Sample.typing) =
  [ "http://localhost:8000/api/tasks?limit=50&offset=0";
    "http://localhost:8000/api/tasks?limit=50&offset=0&q=a";
    "http://localhost:8000/api/tasks?limit=50&offset=0&q=ab" ].
Proof. vm_compute. reflexivity. Qed.

Example creating_state :
  App.log Sample.creating = (App.log Sample.filled ++
    [ {| fetch_url := "http://localhost:8000/api/tasks";
         fetch_method := Some "POST";
         fetch_body := Some (JObj [ ("name", JStr "Catalog");
                                    ("url", JStr "https://example.com");
                                    ("site_type", JStr "ecommerce");
                                    ("criteria", JObj [("depth", JNum "1")]) ]);
         fetch_headers := [("Content-Type", "application/json")] |} ])%list.
Proof. vm_compute. reflexivity. Qed.

(** A delete that the backend rejects leaves the task in the list and
    shows the [detail] of the response. *)
Example delete_rejected :
  let c := App.steps Sample.listed
             [ App.ClickDelete "1" true;
               App.Settle 1 (Sample.responds 404 Sample.not_found) ] in
  App.items (App.state c) = Some (JArr [Sample.alpha; Sample.abacus]) /\
  App.err (App.state c) = Some "not found" /\
  App.loading (App.state c) = false /\
  map fetch_method (App.log c) = [None; Some "DELETE"].
Proof. vm_compute. repeat split. Qed.

(** A create that succeeds: the form is cleared, the site type stays, and
    the requests issued are the first list, the creation and one list. *)
Example create_then_reload :
  let created := Sample.task "7" "Catalog" "https://example.com" ecommerce created in
  let c := App.steps Sample.creating
             [ App.Settle 1 (Sample.responds 201 created);
               App.Settle 2 (Sample.responds 200 (Sample.page [created])) ] in
  App.state c =
    {| App.items := Some (JArr [created]); App.loading := false; App.err := None;
       App.q := ""; App.siteType := ""; App.status := "";
       App.name := ""; App.url := ""; App.createSiteType := ecommerce;
       App.criteriaText := App.default_criteriaText |} /\
  map fetch_method (App.log c) = [None; Some "POST"; None] /\
  App.pending c = ∅.
Proof. vm_compute. repeat split. Qed.

(** C1, as stated, fails: request 1 (for the query a) is issued before
    request 2 (for ab); 2 settles first, 1 after it, and the list shown
    is the result of 1 while the query is ab. *)
Lemma stale_reload_overwrites :
  let c' := App.steps Sample.typing
              [ App.Settle 2 (Sample.responds 200 (Sample.page [Sample.abacus]));
                App.Settle 1 (Sample.responds 200
                                (Sample.page [Sample.alpha; Sample.abacus])) ] in
  map fetch_url (App.log Sample.typing) =
    [ "http://localhost:8000/api/tasks?limit=50&offset=0";
      "http://localhost:8000/api/tasks?limit=50&offset=0&q=a";
      "http://localhost:8000/api/tasks?limit=50&offset=0&q=ab" ] /\
  App.q (App.state c') = "ab" /\
  App.items (App.state c') = Some (JArr [Sample.alpha; Sample.abacus]) /\
  App.items (App.state c') <> Some (JArr [Sample.abacus]).
Proof. vm_compute. repeat split; discriminate. Qed.

(** The two list requests that are in flight after the two filter edits. *)
Lemma typing_reload (rid : nat) (q : string) :
  (rid = 1 /\ q = "a") \/ (rid = 2 /\ q = "ab") ->
  exists r, App.pending Sample.typing !! rid = Some r /\ App.is_reload r.
Proof.
  intros [[-> ->]|[-> ->]]; eexists; (split; [reflexivity|]); split.
  - exists (Some (App.filters (App.apply (setQ "a") App.initial))). reflexivity.
  - eexists (App.apply (setQ "a") App.initial), _.
    split; [apply App.handler_load | left; reflexivity].
  - exists (Some (App.filters (App.apply (setQ "ab") App.initial))). reflexivity.
  - eexists (App.apply (setQ "ab") App.initial), _.
    split; [apply App.handler_load | left; reflexivity].
Defined.

Lemma last_settled_reload_wins_witness :
  App.items (App.state (App.steps Sample.typing
    (App.settle_all
       [ (2, Sample.responds 200 (Sample.page [Sample.abacus]));
         (1, Sample.responds 500 (JObj [("detail", JStr "down")])) ])))
  = Some (JArr [Sample.abacus]).
Proof.
  refine (proj1 (last_settled_reload_wins Sample.typing
                   [ (2, Sample.responds 200 (Sample.page [Sample.abacus]));
                     (1, Sample.responds 500 (JObj [("detail", JStr "down")])) ] _ _)
            [] 2 _ _ [(1, Sample.responds 500 (JObj [("detail", JStr "down")]))]
            eq_refl eq_refl _).
  - intros r Hr. cbn in Hr. destruct Hr as [E|[E|E]]; [subst r | subst r | destruct E].
    + apply (typing_reload 2 "ab"). auto.
    + apply (typing_reload 1 "a"). auto.
  - apply NoDup_ListNoDup. repeat constructor; cbn; intuition lia.
  - repeat constructor. eexists. reflexivity.
Defined.

Lemma req_error_message_witness :
  api.req_settled (Sample.responds 404 Sample.not_found) = Fail (Error "not found").
Proof.
  destruct (req_error_message
              {| res_status := 404; res_json := Ok Sample.not_found |} eq_refl)
    as (_ & Hdetail & _).
  apply (Hdetail Sample.not_found "not found"); reflexivity.
Defined.

(** A [detail] that is no string, which the contract of the error body
    does not provide for: the body of a validation error has an array with
    one object, and the message is the string conversion of that array. *)
Example detail_array_message :
  res_ok {| res_status := 422; res_json := Ok Sample.unprocessable |} = false /\
  (exists d, opt_prop Sample.unprocessable "detail" = Some (JArr [d])) /\
  api.req_settled (Sample.responds 422 Sample.unprocessable)
  = Fail (Error "[object Object]") /\
  resume (api.createTask
            (App.payload_of (App.state Sample.filled) (JObj [("depth", JNum "1")])))
         (Sample.responds 422 Sample.unprocessable)
  = Throw (Error "[object Object]").
Proof.
  split; [reflexivity|]. split; [eexists; reflexivity|].
  split; reflexivity.
Qed.

(** A [detail] that cannot be converted: an object with a property
    [toString] of its own, alone or inside an array. What [req] throws is
    the TypeError of the engine. *)
Example detail_without_conversion :
  let d := JObj [("toString", JStr "x")] in
  ToString d = None /\
  ToString (JArr [JStr "a"; JArr [d]]) = None /\
  ToString (JArr [JStr "a"; JNull; JArr [JNum "1"; JObj []]]) = Some "a,,1,[object Object]" /\
  api.req_settled (Sample.responds 400 (JObj [("detail", d)]))
  = Fail (TypeError_of_ToString d).
Proof. repeat split. Qed.

Lemma onCreate_blank_name_or_url_witness :
  let c := App.step Sample.ready (App.ChangeName "  ") in
  App.log (App.invoke App.onCreate c) = App.log c /\
  App.err (App.state (App.invoke App.onCreate c)) = Some "Введите название задачи".
Proof.
  intros c.
  assert (blank (App.name (App.state c))) as Hblank
    by (apply blank_is_empty_trim; reflexivity).
  destruct (onCreate_blank_name_or_url c (or_introl Hblank)) as (Hlog & _ & Herr & _).
  split; [exact Hlog | exact (Herr Hblank)].
Defined.

Lemma onCreate_criteria_witness :
  let c := App.step Sample.filled (App.ChangeCriteriaText "{not json") in
  App.log (App.invoke App.onCreate c) = App.log c /\
  App.err (App.state (App.invoke App.onCreate c))
  = Some "Критерии должны быть валидным JSON".
Proof.
  intros c.
  destruct (onCreate_criteria c) as [Hbad _].
  destruct Hbad as (Hlog & _ & Herr);
    [apply not_blank_trim; reflexivity | reflexivity |].
  split; [exact Hlog|].
  apply Herr; apply not_blank_trim; reflexivity.
Defined.

Lemma onCreate_success_witness :
  let c' := App.step Sample.creating
              (App.Settle 1 (Sample.responds 201
                 (Sample.task "7" "Catalog" "https://example.com" ecommerce created))) in
  App.name (App.state c') = "" /\
  App.url (App.state c') = "" /\
  App.criteriaText (App.state c') = App.default_criteriaText.
Proof.
  intros c'.
  edestruct (fun f k Ha data Hok Hp =>
               onCreate_success (App.state Sample.filled) f k Ha Sample.creating 1
                 (Sample.responds 201
                    (Sample.task "7" "Catalog" "https://example.com" ecommerce created))
                 data Hp Hok)
    as (_ & Hn & Hu & Hc & _); [reflexivity | reflexivity | reflexivity |].
  split; [exact Hn|]. split; [exact Hu | exact Hc].
Defined.

Lemma onCreate_failure_witness :
  let c' := App.step Sample.creating
              (App.Settle 1 (Sample.responds 422 Sample.unprocessable)) in
  App.name (App.state c') = " Catalog " /\
  App.url (App.state c') = "https://example.com" /\
  App.createSiteType (App.state c') = ecommerce /\
  App.err (App.state c') = Some "[object Object]".
Proof.
  intros c'.
  edestruct (fun f k Ha e Hfail Hp =>
               onCreate_failure (App.state Sample.filled) f k Ha Sample.creating 1
                 (Sample.responds 422 Sample.unprocessable) e Hp Hfail)
    as (Hn & Hu & Ht & _ & He & _); [reflexivity | reflexivity | reflexivity |].
  split; [exact Hn|]. split; [exact Hu|]. split; [exact Ht | exact He].
Defined.

Lemma createSiteType_kept_witness :
  App.createSiteType (App.state (App.steps Sample.filled
    [ App.ClickCreate;
      App.Settle 1 (Sample.responds 201
        (Sample.task "7" "Catalog" "https://example.com" ecommerce created));
      App.Settle 2 (Sample.responds 200 (Sample.page
        [Sample.task "7" "Catalog" "https://example.com" ecommerce created])) ]))
  = ecommerce.
Proof.
  refine (proj2 (createSiteType_kept Sample.filled _ _ _)).
  - apply reachable_steps. repeat constructor.
  - repeat constructor.
Defined.

Lemma error_is_of_latest_action_witness :
  let c0 := App.invoke (App.onDelete (fun _ => true) "1") Sample.listed in
  App.err (App.state c0) = None /\
  App.err (App.state (App.step c0
             (App.Settle 1 (Sample.responds 404 Sample.not_found))))
  = Some "not found".
Proof.
  intros c0.
  destruct (error_is_of_latest_action Sample.listed) as ((_ & _ & Hdelete & _) & _).
  destruct (Hdelete "1") as [Hstart Hend].
  destruct (Hend (Sample.responds 404 Sample.not_found)) as [Herr _].
  split; [exact Hstart | exact Herr].
Defined.

(** C9, as stated, fails: two reloads are in flight, both started with
    the error cleared; the first fails, then the second, the latest
    action, succeeds and its list is shown, and with nothing left in
    flight the error shown is the one of the first. *)
Lemma stale_error_after_success :
  let down := Sample.responds 500 (JObj [("detail", JStr "down")]) in
  let ok := Sample.responds 200 (Sample.page [Sample.abacus]) in
  let c' := App.steps Sample.typing [App.Settle 1 down; App.Settle 2 ok] in
  App.err (App.state Sample.typing) = None /\
  App.load_result ok = Ok (Some (JArr [Sample.abacus])) /\
  App.items (App.state c') = Some (JArr [Sample.abacus]) /\
  App.err (App.state c') = Some "down" /\
  App.loading (App.state c') = false /\
  App.pending c' = ∅.
Proof. vm_compute. repeat split. Qed.

(** *** Witnesses of the further properties *)

Lemma req_failure_source_witness :
  let d := JObj [("toString", JNum "1")] in
  let o := Sample.responds 422 (JObj [("detail", d)]) in
  let e := TypeError_of_ToString d in
  o = Rejected e \/
  (exists res, o = Resolved res /\ res_ok res = true /\
               res_status res <> 204%Z /\ res_json res = Fail e) \/
  (exists res m, o = Resolved res /\ res_ok res = false /\ e = Error m) \/
  (exists res body d',
      o = Resolved res /\ res_ok res = false /\
      res_json res = Ok body /\ opt_prop body "detail" = Some d' /\
      truthy d' = true /\ ToString d' = None /\ e = TypeError_of_ToString d').
Proof.
  intros d o e. apply (req_failure_source o e). reflexivity.
Defined.

Lemma onCreate_payload_witness :
  match awaiting (App.onCreate (App.state Sample.filled)) with
  | Some (f, _) =>
      exists n u criteria,
        fetch_method f = Some "POST" /\
        fetch_url f = api.API_BASE +:+ "/tasks" /\
        fetch_body f = Some (JObj [ ("name", JStr n); ("url", JStr u);
                                    ("site_type", JStr "ecommerce");
                                    ("criteria", criteria) ]) /\
        (is_empty n = false /\ trimmed_of " Catalog " n) /\
        (is_empty u = false /\ trimmed_of "https://example.com" u) /\
        JSON_parse App.default_criteriaText = Some criteria
  | None => False
  end.
Proof.
  destruct (awaiting (App.onCreate (App.state Sample.filled))) as [[f k]|] eqn:Ha.
  - exact (onCreate_payload (App.state Sample.filled) f k Ha).
  - vm_compute in Ha. discriminate Ha.
Defined.

Lemma reload_outcome_witness :
  let c' := App.step Sample.typing
              (App.Settle 2 (Sample.responds 500 (JObj [("detail", JStr "down")]))) in
  App.loading (App.state c') = false /\
  App.items (App.state c') = App.items (App.state Sample.typing) /\
  App.err (App.state c') = Some "down".
Proof.
  intros c'.
  destruct (typing_reload 2 "ab") as (r & Hp & Hr); [auto|].
  destruct (reload_outcome Sample.typing 2
              (Sample.responds 500 (JObj [("detail", JStr "down")])) r Hp Hr)
    as (Hl & _ & _ & _ & _ & Hi & He).
  split; [exact Hl|]. split; [exact Hi | exact He].
Defined.

Lemma loading_ends_with_request_in_flight_witness :
  let c' := App.step Sample.typing
              (App.Settle 1 (Sample.responds 200 (Sample.page [Sample.alpha]))) in
  App.loading (App.state c') = false /\ is_Some (App.pending c' !! 2).
Proof.
  intros c'.
  destruct (typing_reload 1 "a") as (r & Hp & Hr); [auto|].
  destruct (typing_reload 2 "ab") as (r' & Hp' & _); [auto|].
  destruct (loading_ends_with_request_in_flight Sample.typing 1 2
              (Sample.responds 200 (Sample.page [Sample.alpha])) r r' Hp Hr Hp')
    as (Hl & Hin & _); [discriminate|].
  split; [exact Hl | now exists r'].
Defined.

Lemma onDelete_confirmed_witness :
  exists f k,
    awaiting (App.onDelete (fun _ => true) "1" (App.state Sample.listed)) = Some (f, k) /\
    fetch_url f = "http://localhost:8000/api/tasks/1" /\
    fetch_method f = Some "DELETE".
Proof.
  edestruct (fun f k Ha =>
               onDelete_confirmed (App.state Sample.listed) (fun _ => true) "1" f k Ha)
    as (_ & Hf & _); [reflexivity|].
  eexists _, _. split; [reflexivity|]. rewrite Hf. split; reflexivity.
Defined.

Lemma filter_edit_reloads_witness :
  let c := App.step Sample.ready (App.ChangeQ "a") in
  App.step c (App.ChangeQ "a ") = App.input (setQ "a ") c.
Proof.
  intros c.
  destruct (filter_edit_reloads c (App.ChangeQ "a ") (setQ "a ")) as [Hsame _].
  - left. eauto.
  - apply Hsame. repeat split.
Defined.

Lemma sample_creating_reachable : App.reachable Sample.creating.
Proof.
  unfold Sample.creating. constructor. apply reachable_steps. repeat constructor.
Defined.

Lemma requests_are_of_the_transport_witness :
  Forall App.tasks_request (App.log Sample.creating) /\
  App.in_flight_known Sample.creating.
Proof. apply requests_are_of_the_transport, sample_creating_reachable. Defined.

Lemma items_change_only_by_reload_witness :
  let e := App.Settle 1 (Sample.responds 201 Sample.alpha) in
  App.items (App.state (App.step Sample.creating e))
  = App.items (App.state Sample.creating) \/
  exists rid o r v,
    e = App.Settle rid o /\ App.pending Sample.creating !! rid = Some r /\
    App.is_reload r /\ App.load_result o = Ok v /\
    App.items (App.state (App.step Sample.creating e)) = v.
Proof.
  intros e. apply items_change_only_by_reload, sample_creating_reachable.
Defined.

Lemma filters_kept_witness :
  let c' := App.steps Sample.creating
              [ App.Settle 1 (Sample.responds 201 Sample.alpha);
                App.ChangeName "next";
                App.Settle 2 (Sample.responds 200 (Sample.page [Sample.alpha])) ] in
  App.filter_inputs (App.state c') = App.filter_inputs (App.state Sample.creating) /\
  c' = fold_left (fun c e => App.handle e c)
         [ App.Settle 1 (Sample.responds 201 Sample.alpha);
           App.ChangeName "next";
           App.Settle 2 (Sample.responds 200 (Sample.page [Sample.alpha])) ]
         Sample.creating.
Proof.
  intros c'.
  assert (Forall (fun e => App.edits_filter e = false)
            [ App.Settle 1 (Sample.responds 201 Sample.alpha);
              App.ChangeName "next";
              App.Settle 2 (Sample.responds 200 (Sample.page [Sample.alpha])) ])
    as Hes by (repeat constructor).
  exact (filters_kept Sample.creating _ sample_creating_reachable Hes).
Defined.

Lemma click_guarded_by_loading_witness :
  let c := App.steps Sample.filled
             [ App.ClickCreate; App.ChangeQ "a";
               App.Settle 2 (Sample.responds 200 (Sample.page [])) ] in
  let c1 := App.step c App.ClickCreate in
  map fetch_method (App.log c) = [None; Some "POST"; None] /\
  App.loading (App.state c1) = true /\
  exists r,
    App.log c1 = (App.log c ++ [fst r])%list /\
    App.pending c1 = <[App.next c := r]> (App.pending c).
Proof.
  intros c c1. split; [vm_compute; reflexivity|].
  destruct (click_guarded_by_loading c App.ClickCreate eq_refl) as [_ Hfree].
  destruct Hfree as [(Hl & _)|Hissued].
  - vm_compute. reflexivity.
  - vm_compute in Hl. discriminate Hl.
  - exact Hissued.
Defined.
